(** * Text cleaning and chunking pipeline of [src/text_processor.py]

    A shallow embedding of the [TextProcessor] class: the cleanup patterns,
    the line filter, the structuring pass, the heading detector, the spacing
    normaliser and the sentence chunker, together with the part of Python's
    [str] and [re] behaviour they rely on.

    Texts are Python [str] values whose code points lie in U+0000..U+00FF:
    a character is an [ascii] (eight bits) read as a Latin-1 code point and
    the character classes below are Python's Unicode classes on that range. *)

From Stdlib Require Import String Ascii ZArith NArith Lia Bool Arith List.
Import ListNotations.

Local Open Scope char_scope.
Local Open Scope list_scope.
Local Open Scope nat_scope.

(** ** Python [str] *)

Definition str : Type := list ascii.

(** A literal: [s "abc"] is the Python string ['abc']. *)
Definition s (w : string) : str := list_ascii_of_string w.

Definition nl : ascii := "010".
Definition code (c : ascii) : N := N_of_ascii c.

Definition in_range (lo hi : N) (c : ascii) : bool :=
  ((lo <=? code c) && (code c <=? hi))%N.

Module Unicode.

(** [str.isspace] on one character, also the class [\s] of [re]. *)
Definition isspace (c : ascii) : bool :=
  in_range 9 13 c || in_range 28 32 c || in_range 133 133 c || in_range 160 160 c.

(** The class [\d] of [re]: decimal digits. *)
Definition isdecimal (c : ascii) : bool := in_range 48 57 c.

Definition isupper (c : ascii) : bool :=
  in_range 65 90 c || in_range 192 214 c || in_range 216 222 c.

Definition islower (c : ascii) : bool :=
  in_range 97 122 c || in_range 170 170 c || in_range 181 181 c
  || in_range 186 186 c || in_range 223 246 c || in_range 248 255 c.

(** No character of this range is titlecase. *)
Definition istitle (c : ascii) : bool := false.

(** The class [\w] of [re]: alphanumeric characters and the underscore. *)
Definition isword (c : ascii) : bool :=
  in_range 48 57 c || in_range 65 90 c || in_range 95 95 c || in_range 97 122 c
  || in_range 170 170 c || in_range 178 179 c || in_range 181 181 c
  || in_range 185 186 c || in_range 188 190 c || in_range 192 214 c
  || in_range 216 246 c || in_range 248 255 c.

(** [str.lower] on one character. *)
Definition lower (c : ascii) : ascii :=
  if isupper c then ascii_of_N (code c + 32) else c.

End Unicode.

Module Py.

Definition len (t : str) : Z := Z.of_nat (length t).

Definition lower (t : str) : str := map Unicode.lower t.

(** [str.isupper]: no lowercase or titlecase character and at least one
    uppercase one. *)
Fixpoint isupper_from (cased : bool) (t : str) : bool :=
  match t with
  | [] => cased
  | c :: r =>
      if Unicode.islower c || Unicode.istitle c then false
      else isupper_from (cased || Unicode.isupper c) r
  end.

Definition isupper (t : str) : bool := isupper_from false t.

(** [str.istitle]: uppercase characters follow uncased ones only, lowercase
    characters follow cased ones only, and there is a cased character. *)
Fixpoint istitle_from (cased previous_is_cased : bool) (t : str) : bool :=
  match t with
  | [] => cased
  | c :: r =>
      if Unicode.isupper c || Unicode.istitle c then
        if previous_is_cased then false else istitle_from true true r
      else if Unicode.islower c then
        if previous_is_cased then istitle_from true true r else false
      else istitle_from cased false r
  end.

Definition istitle (t : str) : bool := istitle_from false false t.

(** [str.lstrip], [str.rstrip] and [str.strip] without argument. *)
Fixpoint lstrip (t : str) : str :=
  match t with
  | c :: r => if Unicode.isspace c then lstrip r else t
  | [] => []
  end.

Definition rstrip (t : str) : str := rev (lstrip (rev t)).

Definition strip (t : str) : str := rstrip (lstrip t).

(** [str.startswith] and [str.endswith], on one affix and on a tuple. *)
Fixpoint startswith1 (t prefix : str) : bool :=
  match prefix, t with
  | [], _ => true
  | p :: ps, c :: r => Ascii.eqb p c && startswith1 r ps
  | _ :: _, [] => false
  end.

Definition endswith1 (t suffix : str) : bool :=
  startswith1 (rev t) (rev suffix).

Definition startswith (t : str) (prefixes : list str) : bool :=
  existsb (startswith1 t) prefixes.

Definition endswith (t : str) (suffixes : list str) : bool :=
  existsb (endswith1 t) suffixes.

(** [sub in t] on strings. *)
Fixpoint contains (sub t : str) : bool :=
  startswith1 t sub ||
  match t with
  | [] => false
  | _ :: r => contains sub r
  end.

(** [c in chars] for a character [c]. *)
Definition char_in (c : ascii) (chars : str) : bool :=
  existsb (Ascii.eqb c) chars.

(** Prepends a character to the first piece of a split. *)
Definition cons_head (c : ascii) (pieces : list str) : list str :=
  match pieces with
  | [] => [[c]]
  | p :: ps => (c :: p) :: ps
  end.

(** [str.split(sep)] for a one-character separator: always at least one
    piece, empty pieces kept. *)
Fixpoint split_on (sep : ascii) (t : str) : list str :=
  match t with
  | [] => [[]]
  | c :: r =>
      if Ascii.eqb c sep then [] :: split_on sep r
      else cons_head c (split_on sep r)
  end.

(** [str.split()] without argument: the maximal runs of characters that
    are not whitespace. *)
Fixpoint split_ws (t : str) : list str :=
  match t with
  | [] => []
  | c :: r =>
      if Unicode.isspace c then split_ws r
      else
        match r with
        | [] => [[c]]
        | d :: _ =>
            if Unicode.isspace d then [c] :: split_ws r
            else cons_head c (split_ws r)
        end
  end.

(** [sep.join(pieces)]. *)
Fixpoint join (sep : str) (pieces : list str) : str :=
  match pieces with
  | [] => []
  | [p] => p
  | p :: ps => p ++ sep ++ join sep ps
  end.

End Py.

(** ** The fragment of Python's [re] used by the program *)

Module Re.

(** Patterns.  Repetition is only ever applied to a character class, and
    is greedy.  [Rep p 0] is [p*], [Rep p 1] is [p+], [Rep p 2] is
    [p{2,}]. *)
Inductive regex : Type :=
| Cls (p : ascii -> bool)
| Rep (p : ascii -> bool) (lo : nat)
| Cat (a b : regex)
| Alt (a b : regex)
| Bol
| Eol
| Behind (p : ascii -> bool).

Definition chr (c : ascii) : regex := Cls (Ascii.eqb c).

(** A literal word, character by character. *)
Fixpoint lit (w : str) : regex :=
  match w with
  | [] => Rep (fun _ => false) 0
  | [c] => chr c
  | c :: r => Cat (chr c) (lit r)
  end.

(** The continuation receives the character before the current position
    and the text from the current position on. *)
Definition cont : Type := option ascii -> str -> option str.

(** Greedy repetition of a class: the longest run first, then shorter
    ones, never fewer than [lo] characters. *)
Fixpoint rep (p : ascii -> bool) (lo : nat) (prev : option ascii) (t : str)
         (k : cont) : option str :=
  let stop := match lo with O => k prev t | S _ => None end in
  match t with
  | c :: r =>
      if p c then
        match rep p (pred lo) (Some c) r k with
        | Some rest => Some rest
        | None => stop
        end
      else stop
  | [] => stop
  end.

(** Backtracking matcher at one position; the result is the text left
    after the match that Python finds there. *)
Fixpoint run (r : regex) (prev : option ascii) (t : str) (k : cont)
  : option str :=
  match r with
  | Cls p =>
      match t with
      | c :: rest => if p c then k (Some c) rest else None
      | [] => None
      end
  | Rep p lo => rep p lo prev t k
  | Cat a b => run a prev t (fun prev' t' => run b prev' t' k)
  | Alt a b =>
      match run a prev t k with
      | Some rest => Some rest
      | None => run b prev t k
      end
  | Bol => match prev with None => k prev t | Some _ => None end
  | Eol =>
      match t with
      | [] => k prev t
      | [c] => if Ascii.eqb c nl then k prev t else None
      | _ => None
      end
  | Behind p =>
      match prev with
      | Some c => if p c then k prev t else None
      | None => None
      end
  end.

Definition accept : cont := fun _ rest => Some rest.

(** Number of characters of the match starting at the current position,
    if there is one. *)
Definition match_len (r : regex) (prev : option ascii) (t : str) : option nat :=
  match run r prev t accept with
  | Some rest => Some (length t - length rest)
  | None => None
  end.

(** [re.match(r, t)], as a truth value. *)
Definition matches (r : regex) (t : str) : bool :=
  match match_len r None t with
  | Some _ => true
  | None => false
  end.

(** [re.sub(r, repl, t)] for a pattern whose matches are never empty:
    scanning from the left, [skip] counts the characters still covered by
    the match in progress. *)
Fixpoint sub_from (r : regex) (repl : str) (skip : nat) (prev : option ascii)
         (t : str) : str :=
  match t with
  | [] => []
  | c :: rest =>
      match skip with
      | S n => sub_from r repl n (Some c) rest
      | O =>
          match match_len r prev t with
          | Some (S n) => repl ++ sub_from r repl n (Some c) rest
          | _ => c :: sub_from r repl O (Some c) rest
          end
      end
  end.

Definition sub (r : regex) (repl : str) (t : str) : str :=
  sub_from r repl O None t.

(** [re.split(r, t)] for a pattern without groups whose matches are never
    empty. *)
Fixpoint split_from (r : regex) (skip : nat) (prev : option ascii) (t : str)
  : list str :=
  match t with
  | [] => [[]]
  | c :: rest =>
      match skip with
      | S n => split_from r n (Some c) rest
      | O =>
          match match_len r prev t with
          | Some (S n) => [] :: split_from r n (Some c) rest
          | _ => Py.cons_head c (split_from r O (Some c) rest)
          end
      end
  end.

Definition split (r : regex) (t : str) : list str := split_from r O None t.

End Re.

(** ** The [TextProcessor] class *)

Module TextProcessor.

Import Re.

(** Truth value of a string: [if text:]. *)
Definition truthy (text : str) : bool :=
  match text with
  | [] => false
  | _ :: _ => true
  end.

(** The characters listed in the third cleanup pattern next to [\w] and
    [\s]: [-.,;:!?], the inverted marks, the accented vowels, n with tilde
    and u with diaeresis in both cases, parentheses, brackets, both quotes
    and the slash. *)
Definition listed_characters : str :=
  ["-"; "."; ","; ";"; ":"; "!"; "?"; "161"; "191";
   "225"; "233"; "237"; "243"; "250"; "241"; "252";
   "193"; "201"; "205"; "211"; "218"; "209"; "220";
   "("; ")"; "["; "]"; "034"; "'"; "/"].

Definition problematic (c : ascii) : bool :=
  negb (Unicode.isword c || Unicode.isspace c || Py.char_in c listed_characters).

Definition whitespace_run : regex := Rep Unicode.isspace 1.

Definition newline_run : regex :=
  Cat (chr nl) (Cat (Rep Unicode.isspace 0)
    (Cat (chr nl) (Cat (Rep Unicode.isspace 0) (Rep (Ascii.eqb nl) 1)))).

(** [self.cleanup_patterns], in the order of the source. *)
Definition cleanup_patterns : list (regex * str) :=
  [ (whitespace_run, s " ");
    (newline_run, [nl; nl]);
    (Cls problematic, []);
    (Rep (Ascii.eqb ".") 2, s ".");
    (Rep (Ascii.eqb "?") 2, s "?");
    (Rep (Ascii.eqb "!") 2, s "!") ].

(** [self.filter_phrases]. *)
Definition filter_phrases : list str :=
  map s
    [ "skip to main content"; "breadcrumb navigation"; "table of contents";
      "in this article"; "next steps"; "feedback"; "was this page helpful";
      "submit and view feedback"; "microsoft learn"; "sign in"; "search";
      "browse"; "theme"; "light"; "dark"; "high contrast"; "previous unit";
      "next unit"; "completed"; "check your knowledge"; "knowledge check";
      "leer en ingles"; "agregar"; "agregar al plan"; "logros";
      "preguntar a learn"; "completado";
      "comentarios"; "le ha resultado util esta pagina";
      "minutos" ]%string.

Definition _basic_cleanup (text : str) : str :=
  fold_left
    (fun text (entry : regex * str) =>
       let (pattern, replacement) := entry in sub pattern replacement text)
    cleanup_patterns text.

(** [^\d+\s*(min|sec|hr|minute|second|hour)] *)
Definition duration_pattern : regex :=
  Cat Bol (Cat (Rep Unicode.isdecimal 1) (Cat (Rep Unicode.isspace 0)
    (Alt (lit (s "min")) (Alt (lit (s "sec")) (Alt (lit (s "hr"))
      (Alt (lit (s "minute")) (Alt (lit (s "second")) (lit (s "hour"))))))))).

(** [^(step \d+|unit \d+|\d+\.)$] *)
Definition marker_pattern : regex :=
  Cat Bol
    (Cat (Alt (Cat (lit (s "step ")) (Rep Unicode.isdecimal 1))
           (Alt (Cat (lit (s "unit ")) (Rep Unicode.isdecimal 1))
                (Cat (Rep Unicode.isdecimal 1) (chr "."))))
         Eol).

(** The condition of the second [if] of the filter loop. *)
Definition looks_like_navigation (line_lower : str) : bool :=
  Py.startswith line_lower [s "http"; s "www."; s "mailto:"]
  || Py.endswith line_lower [s "min"; s "sec"; s "hr"]
  || matches duration_pattern line_lower
  || matches marker_pattern line_lower.

(** One iteration of the loop of [_filter_unwanted_content]. *)
Definition filter_line (filtered_lines : list str) (line : str) : list str :=
  let line := Py.strip line in
  let line_lower := Py.lower line in
  if (length line <? 3)%nat then filtered_lines
  else
    let should_filter :=
      existsb (fun phrase => Py.contains phrase line_lower) filter_phrases in
    let should_filter :=
      if looks_like_navigation line_lower then true else should_filter in
    if negb should_filter then filtered_lines ++ [line] else filtered_lines.

Definition filtered_lines_of (lines : list str) : list str :=
  fold_left filter_line lines [].

Definition _filter_unwanted_content (text : str) : str :=
  let lines := Py.split_on nl text in
  Py.join [nl] (filtered_lines_of lines).

Definition _is_heading (line : str) : bool :=
  (length line <? 100)%nat
  && negb (Py.endswith line [s "."; s "!"; s "?"; s ","; s ";"; s ":"])
  && (Py.isupper line || Py.istitle line
      || existsb Py.isupper (Py.split_ws line)).

(** One iteration of the loop of [_structure_for_audio]. *)
Definition structure_line (structured_lines : list str) (line : str)
  : list str :=
  let line := Py.strip line in
  if negb (truthy line) then structured_lines
  else if _is_heading line then
    (structured_lines ++ [line ++ s "."]) ++ [[]]
  else
    let line :=
      if truthy line && negb (Py.char_in (last line " ") (s ".!?"))
      then line ++ s "." else line in
    structured_lines ++ [line].

Definition structured_lines_of (lines : list str) : list str :=
  fold_left structure_line lines [].

Definition _structure_for_audio (text : str) : str :=
  let lines := Py.split_on nl text in
  Py.join [nl] (structured_lines_of lines).

Definition _normalize_spacing (text : str) : str :=
  let text := sub (Rep (Ascii.eqb " ") 1) (s " ") text in
  let text := sub newline_run [nl; nl] text in
  let lines := map Py.strip (Py.split_on nl text) in
  Py.join [nl] lines.

(** [raw_text] is [None] for Python's [None]. *)
Definition clean_and_structure (raw_text : option str) : str :=
  match raw_text with
  | None => []
  | Some [] => []
  | Some raw_text =>
      let text := _basic_cleanup raw_text in
      let text := _filter_unwanted_content text in
      let text := _structure_for_audio text in
      let text := _normalize_spacing text in
      Py.strip text
  end.

(** [(?<=[.!?])\s+] *)
Definition sentence_break : regex :=
  Cat (Behind (fun c => Py.char_in c (s ".!?"))) (Rep Unicode.isspace 1).

Definition sentences_of (text : str) : list str :=
  let sentences := split sentence_break (Py.strip text) in
  map Py.strip (filter (fun x => truthy (Py.strip x)) sentences).

Definition sentence_with_space (sentence : str) : str :=
  (if Py.endswith sentence [s "."; s "!"; s "?"] then sentence
   else sentence ++ s ".") ++ s " ".

(** One iteration of the chunking loop on the pair
    [(chunks, current_chunk)]. *)
Definition chunk_step (max_chunk_size : Z) (state : list str * str)
           (sentence : str) : list str * str :=
  let (chunks, current_chunk) := state in
  let sentence_with_space := sentence_with_space sentence in
  if (Py.len current_chunk + Py.len sentence_with_space >? max_chunk_size)%Z
  then
    ((if truthy current_chunk then chunks ++ [Py.strip current_chunk]
      else chunks),
     sentence_with_space)
  else (chunks, current_chunk ++ sentence_with_space).

Definition chunks_of (max_chunk_size : Z) (sentences : list str) : list str :=
  let (chunks, current_chunk) :=
    fold_left (chunk_step max_chunk_size) sentences ([], []) in
  if truthy current_chunk then chunks ++ [Py.strip current_chunk] else chunks.

(** What a call raises instead of returning. *)
Inductive exception : Type :=
| AttributeError.

(** [text] is [None] for Python's [None], on which [text.strip()] raises. *)
Definition split_into_chunks (text : option str) (max_chunk_size : Z)
  : list str + exception :=
  match text with
  | None => inr AttributeError
  | Some text => inl (chunks_of max_chunk_size (sentences_of text))
  end.

Definition default_max_chunk_size : Z := 4000.

End TextProcessor.


(** ** Vocabulary of the specification *)

Module Spec.

Import TextProcessor.

(** The six noise rules of the line classifier, on a trimmed line. *)
Definition is_noise (line : str) : bool :=
  let line_lower := Py.lower line in
  (length line <? 3)%nat
  || existsb (fun phrase => Py.contains phrase line_lower) filter_phrases
  || Py.startswith line_lower [s "http"; s "www."; s "mailto:"]
  || Py.endswith line_lower [s "min"; s "sec"; s "hr"]
  || Re.matches duration_pattern line_lower
  || Re.matches marker_pattern line_lower.

(** The last character is one of [.], [!] and [?]. *)
Definition ends_sentence (t : str) : bool :=
  Py.char_in (last t " ") (s ".!?").

(** A line with its terminal full stop ensured. *)
Definition closed (line : str) : str :=
  if ends_sentence line then line else line ++ s ".".

(** What the structuring pass emits for one non-empty trimmed line. *)
Definition emitted (line : str) : list str :=
  if _is_heading line then [line ++ s "."; []] else [closed line].

(** A sentence in its emitted form, without the trailing space. *)
Definition terminated (sentence : str) : str :=
  if Py.endswith sentence [s "."; s "!"; s "?"] then sentence
  else sentence ++ s ".".

(** The chunk made of a group of consecutive sentences. *)
Definition chunk_of (group : list str) : str :=
  Py.join (s " ") (map terminated group).

(** A group of sentences respects the bound, or is one sentence that alone
    exceeds it. *)
Definition within_bound (max_chunk_size : Z) (group : list str) : Prop :=
  (Py.len (chunk_of group) <= max_chunk_size)%Z
  \/ exists sentence,
      group = [sentence] /\ (Py.len (terminated sentence) > max_chunk_size)%Z.

(** The text ends in one of the given characters. *)
Definition ends_in (chars : list ascii) (t : str) : Prop :=
  exists front c, t = front ++ [c] /\ In c chars.

Definition cased (c : ascii) : bool := Unicode.isupper c || Unicode.islower c.

(** Entirely uppercase: some cased character, and no lowercase one. *)
Definition entirely_upper (t : str) : Prop :=
  (exists c, In c t /\ Unicode.isupper c = true)
  /\ forall c, In c t -> Unicode.islower c = false.

(** Title case: some cased character, every uppercase character is the first
    character or follows an uncased one, and every lowercase character
    follows a cased one. *)
Definition title_case (t : str) : Prop :=
  (exists c, In c t /\ cased c = true)
  /\ forall front c back,
      t = front ++ c :: back ->
      (Unicode.isupper c = true -> cased (last front " ") = false)
      /\ (Unicode.islower c = true -> cased (last front " ") = true).

Definition nonspace (c : ascii) : bool := negb (Unicode.isspace c).

(** [w] is a whitespace-delimited word of [t]. *)
Definition word_of (t w : str) : Prop :=
  exists front back,
    t = front ++ w ++ back
    /\ w <> []
    /\ Forall (fun c => Unicode.isspace c = false) w
    /\ Unicode.isspace (last front " ") = true
    /\ Unicode.isspace (hd " " back) = true.

(** A text that is not empty and neither starts nor ends with whitespace. *)
Definition solid (t : str) : Prop :=
  t <> []
  /\ Unicode.isspace (hd " " t) = false
  /\ Unicode.isspace (last t " ") = false.

(** [a] immediately followed by [b] somewhere in [t]. *)
Definition has_pair (a b : ascii) (t : str) : Prop :=
  exists front back, t = front ++ a :: b :: back.

(** Every maximal run of characters of the class [p] replaced by the one
    character [e]. *)
Fixpoint squash (p : ascii -> bool) (e : ascii) (t : str) : str :=
  match t with
  | [] => []
  | c :: r =>
      if p c then
        match r with
        | d :: _ => if p d then squash p e r else e :: squash p e r
        | [] => [e]
        end
      else c :: squash p e r
  end.

(** The only whitespace of the text is the space character. *)
Definition plain_spaces (t : str) : Prop :=
  Forall (fun c => Unicode.isspace c = true -> c = " ") t.

(** What the cleanup patterns leave: plain spaces, no character outside the
    allowlist, no doubled [.], [?] or [!]. *)
Definition tidy (t : str) : Prop :=
  plain_spaces t
  /\ Forall (fun c => problematic c = false) t
  /\ ~ has_pair "." "." t /\ ~ has_pair "?" "?" t /\ ~ has_pair "!" "!" t.

(** Length of the longest prefix made of characters of the class [p]. *)
Fixpoint span (p : ascii -> bool) (t : str) : nat :=
  match t with
  | c :: r => if p c then S (span p r) else O
  | [] => O
  end.

End Spec.

(** ** Further [str] operations *)

Module Python.

(** [a == b] on strings. *)
Fixpoint str_eqb (a b : str) : bool :=
  match a, b with
  | [], [] => true
  | x :: a', y :: b' => Ascii.eqb x y && str_eqb a' b'
  | _, _ => false
  end.

(** [x in items] for a list of strings. *)
Definition mem (x : str) (items : list str) : bool :=
  existsb (str_eqb x) items.

(** [str.strip(chars)]: leading and trailing characters of [chars]
    removed. *)
Fixpoint lstrip_chars (chars t : str) : str :=
  match t with
  | c :: r => if Py.char_in c chars then lstrip_chars chars r else t
  | [] => []
  end.

Definition strip_chars (chars t : str) : str :=
  rev (lstrip_chars chars (rev (lstrip_chars chars t))).

(** The slice [t[:k]]: a negative [k] counts from the end. *)
Definition slice_to (t : str) (k : Z) : str :=
  if (k <? 0)%Z then firstn (Z.to_nat (Py.len t + k)) t
  else firstn (Z.to_nat k) t.

End Python.

(** ** The functions of [src/utils.py] *)

Module Utils.

Import Re TextProcessor.

Definition default_filename : str := s "microsoft_learn_course".

(** [[^\w\s-]] *)
Definition unsafe_character (c : ascii) : bool :=
  negb (Unicode.isword c || Unicode.isspace c || Ascii.eqb c "-").

(** [[-\s]+] *)
Definition separator (c : ascii) : bool :=
  Ascii.eqb c "-" || Unicode.isspace c.

(** [title] is a string; the empty string is the falsy one. *)
Definition create_safe_filename (title : str) : str :=
  if negb (truthy title) then default_filename
  else
    let filename := sub (Cls unsafe_character) [] title in
    let filename := sub (Rep separator 1) (s "_") filename in
    let filename := Py.lower (Python.strip_chars (s "_") filename) in
    let filename :=
      if (Py.len filename >? 50)%Z then Python.slice_to filename 50
      else filename in
    if negb (truthy filename) then default_filename else filename.

Definition truncate_text (text : str) (max_length : Z) : str :=
  if negb (truthy text) then []
  else if (Py.len text <=? max_length)%Z then text
  else Python.slice_to text (max_length - 3) ++ s "...".

Definition clean_text_for_display (text : str) (max_length : Z) : str :=
  if negb (truthy text) then []
  else
    let text := sub (Rep (Ascii.eqb nl) 1) (s " ") text in
    let text := sub (Rep Unicode.isspace 1) (s " ") text in
    truncate_text (Py.strip text) max_length.

End Utils.

(** ** The link and content extraction of [src/scraper.py]

    The HTML parser and [urljoin] are libraries: a page is given by what
    the parser returns for it, and [urljoin] is a parameter. *)

Module Scraper.

Import Re TextProcessor.

(** One iteration of the loop of [_extract_units_links]; [href] is the
    attribute of one anchor of [soup.find_all('a', href=True)]. *)
Definition units_step (urljoin : str -> str -> str) (base_url : str)
           (units : list str) (href : str) : list str :=
  if truthy href
     && (Py.contains (s "unit-") href || Py.contains (s "/units/") href)
  then
    let full_url := urljoin base_url href in
    if negb (Python.str_eqb full_url base_url)
       && negb (Python.mem full_url units)
    then units ++ [full_url] else units
  else units.

Definition _extract_units_links (urljoin : str -> str -> str)
           (hrefs : list str) (base_url : str) : list str :=
  firstn 10 (fold_left (units_step urljoin base_url) hrefs []).



Definition header_names : list str :=
  [s "h1"; s "h2"; s "h3"; s "h4"; s "h5"; s "h6"].

(** One iteration of the loop of [_extract_main_content] on an element
    given by its tag name and its text. *)
Definition content_step (content_parts : list str) (element : str * str)
  : list str :=
  let (name, raw) := element in
  let text := Py.strip raw in
  if truthy text && (10 <? length text) then
    let text := sub (Rep Unicode.isspace 1) (s " ") text in
    let text := sub (Rep (Ascii.eqb nl) 1) [nl] text in
    if Python.mem name header_names
    then content_parts ++ [[nl; nl] ++ text ++ [nl]]
    else content_parts ++ [text]
  else content_parts.

(** [elements] are the elements found under the main content, in document
    order. *)
Definition _extract_main_content (elements : list (str * str)) : str :=
  Py.join (s " ") (fold_left content_step elements []).

End Scraper.

(** ** Further vocabulary *)

Module Vocabulary.

Import TextProcessor Spec.

(** A text made of whitespace only. *)
Definition blank (t : str) : Prop :=
  Forall (fun c => Unicode.isspace c = true) t.

(** No sentence break inside [t]: no [.], [!] or [?] is directly followed
    by whitespace. *)
Definition unbroken (t : str) : Prop :=
  forall front c d back,
    t = front ++ c :: d :: back ->
    Py.char_in c (s ".!?") = true -> Unicode.isspace d = false.

(** [body] is the sentences in order: each but the last ends in [.], [!]
    or [?] and is followed by a non-empty run of whitespace, after which
    the next one starts. *)
Fixpoint laid_out (sentences : list str) (body : str) : Prop :=
  match sentences with
  | [] => body = []
  | sentence :: rest =>
      match rest with
      | [] => body = sentence
      | _ :: _ =>
          exists gap tail,
            body = sentence ++ gap ++ tail
            /\ ends_sentence sentence = true
            /\ gap <> [] /\ blank gap
            /\ laid_out rest tail
      end
  end.

(** The sentences of a text: the text is the sentences laid out in order
    between two runs of whitespace, and every sentence starts and ends with
    a visible character and has no sentence break inside. *)
Definition sentences_in (text : str) (sentences : list str) : Prop :=
  Forall (fun x => solid x /\ unbroken x) sentences
  /\ exists lead body trail,
      text = lead ++ body ++ trail
      /\ blank lead /\ blank trail /\ laid_out sentences body.

(** The text read so far, as far as a look-behind sees it. *)
Definition before (prev : option ascii) (t : str) : str :=
  match prev with
  | Some p => p :: t
  | None => t
  end.

(** The character before the position reached after reading [t]. *)
Definition last_seen (prev : option ascii) (t : str) : option ascii :=
  match t with
  | [] => prev
  | c :: r => Some (last r c)
  end.

(** Puts [x] in front of the first piece of a split. *)
Definition prepend (x : str) (pieces : list str) : list str :=
  match pieces with
  | [] => [x]
  | p :: ps => (x ++ p) :: ps
  end.

(** What [re.split] returns from an arbitrary position: as [laid_out], but
    the first piece continues the text read so far and may be empty, and so
    may the last one. *)
Fixpoint split_layout (prev : option ascii) (pieces : list str) (t : str)
  : Prop :=
  match pieces with
  | [] => False
  | x :: rest =>
      unbroken (before prev x)
      /\ match rest with
         | [] => t = x
         | _ :: _ =>
             exists gap tail p,
               t = x ++ gap ++ tail
               /\ last_seen prev x = Some p
               /\ Py.char_in p (s ".!?") = true
               /\ gap <> [] /\ blank gap
               /\ Unicode.isspace (hd "a" tail) = false
               /\ split_layout (Some (last gap " ")) rest tail
         end
  end.

(** Each group but the last is closed only because the first sentence of
    the next group, with its trailing space, no longer fits behind it. *)
Fixpoint greedy (max_chunk_size : Z) (groups : list (list str)) : Prop :=
  match groups with
  | g :: ((h :: _) as rest) =>
      (Py.len (chunk_of g) + 1 + Py.len (terminated (hd [] h)) + 1
       > max_chunk_size)%Z
      /\ greedy max_chunk_size rest
  | _ => True
  end.

(** A character that a safe file name may hold: no whitespace, and of the
    ASCII characters only the digits, the lowercase letters and the
    underscore. *)
Definition filename_character (c : ascii) : bool :=
  negb (Unicode.isspace c)
  && (in_range 48 57 c || in_range 97 122 c || Ascii.eqb c "_"
      || in_range 128 255 c).

End Vocabulary.

Import TextProcessor Spec.
Import Vocabulary Utils Scraper.

#[local] Arguments Ascii.eqb : simpl never.
#[local] Arguments Unicode.isspace : simpl never.

(** ** Characters *)

Lemma nl_isspace : Unicode.isspace nl = true.
Proof. reflexivity. Qed.

Lemma eqb_nl_false (c : ascii) : c <> nl -> Ascii.eqb nl c = false.
Proof. intros H. apply Ascii.eqb_neq. congruence. Qed.

(** ** Empty and absent input *)

(** C2, as the code has it: [clean_and_structure] returns the empty string
    for the empty string and for [None]; [split_into_chunks] returns the
    empty list for the empty string under every bound, and raises
    [AttributeError] on [None]. *)
Theorem empty_and_absent_input :
  clean_and_structure (Some []) = []
  /\ clean_and_structure None = []
  /\ (forall max_chunk_size, split_into_chunks (Some []) max_chunk_size = inl [])
  /\ (forall max_chunk_size,
        split_into_chunks None max_chunk_size = inr AttributeError).
Proof. repeat split. Qed.

(** C2 as stated fails: on [None], [split_into_chunks] does not return an
    empty list. *)
Lemma split_into_chunks_absent_raises :
  split_into_chunks None default_max_chunk_size <> inl [].
Proof. discriminate. Qed.

(** ** The first cleanup pattern joins lines *)

(** C1 at the failing inputs: two lines come out of [_basic_cleanup] as one,
    and four consecutive newlines are not reduced to two but to a space. *)
Theorem basic_cleanup_joins_lines :
  _basic_cleanup (s "a" ++ [nl] ++ s "b") = s "a b"
  /\ _basic_cleanup (s "a" ++ [nl; nl; nl; nl] ++ s "b") = s "a b".
Proof. split; vm_compute; reflexivity. Qed.

(** ** The line filter *)

Lemma filter_line_spec (filtered_lines : list str) (line : str) :
  filter_line filtered_lines line
  = filtered_lines
    ++ (if is_noise (Py.strip line) then [] else [Py.strip line]).
Proof.
  unfold filter_line, is_noise, looks_like_navigation; cbv zeta.
  set (short := (length (Py.strip line) <? 3)%nat).
  set (phrase := existsb _ filter_phrases).
  set (starts := Py.startswith _ _).
  set (ends := Py.endswith _ _).
  set (duration := Re.matches duration_pattern _).
  set (marker := Re.matches marker_pattern _).
  clearbody short phrase starts ends duration marker.
  destruct short, phrase, starts, ends, duration, marker;
    cbn [negb orb]; now rewrite ?app_nil_r.
Qed.

Lemma fold_filter_line (lines filtered_lines : list str) :
  fold_left filter_line lines filtered_lines
  = filtered_lines
    ++ filter (fun line => negb (is_noise line)) (map Py.strip lines).
Proof.
  revert filtered_lines.
  induction lines as [|line lines IH]; intros acc; simpl.
  - now rewrite app_nil_r.
  - rewrite IH, filter_line_spec.
    destruct (is_noise (Py.strip line)); simpl.
    + now rewrite app_nil_r.
    + now rewrite <- app_assoc.
Qed.

Lemma filtered_lines_of_spec (lines : list str) :
  filtered_lines_of lines
  = filter (fun line => negb (is_noise line)) (map Py.strip lines).
Proof. unfold filtered_lines_of. now rewrite fold_filter_line. Qed.



(** ** The structuring pass *)

Lemma structure_line_spec (structured_lines : list str) (line : str) :
  structure_line structured_lines line
  = structured_lines
    ++ (if truthy (Py.strip line) then emitted (Py.strip line) else []).
Proof.
  unfold structure_line, emitted, closed, ends_sentence; cbv zeta.
  set (trimmed := Py.strip line).
  set (nonempty := truthy trimmed).
  set (heading := _is_heading trimmed).
  set (ended := Py.char_in _ _).
  clearbody nonempty heading ended.
  destruct nonempty, heading, ended; cbn [negb andb];
    now rewrite <- ?app_assoc, ?app_nil_r.
Qed.

Lemma fold_structure_line (lines structured_lines : list str) :
  fold_left structure_line lines structured_lines
  = structured_lines
    ++ flat_map emitted (filter truthy (map Py.strip lines)).
Proof.
  revert structured_lines.
  induction lines as [|line lines IH]; intros acc; simpl.
  - now rewrite app_nil_r.
  - rewrite IH, structure_line_spec.
    destruct (truthy (Py.strip line)); simpl.
    + now rewrite <- app_assoc.
    + now rewrite app_nil_r.
Qed.

Lemma structured_lines_of_spec (lines : list str) :
  structured_lines_of lines
  = flat_map emitted (filter truthy (map Py.strip lines)).
Proof. unfold structured_lines_of. now rewrite fold_structure_line. Qed.

(** C5: the structured text is the join of what each non-empty trimmed line
    emits, in order: a heading emits itself with a full stop and then an
    empty line; any other line emits itself, with a full stop appended when
    it does not end in [.], [!] or [?].  The all-caps line is followed by
    an empty line, and "This has no period" gains its full stop. *)
Theorem structuring_pass_per_line :
  (forall text,
      _structure_for_audio text
      = Py.join [nl]
          (flat_map emitted (filter truthy (map Py.strip (Py.split_on nl text)))))
  /\ (forall line,
         emitted line
         = if _is_heading line then [line ++ s "."; []]
           else if ends_sentence line then [line]
           else [line ++ s "."])
  /\ structured_lines_of [s "POWER PLATFORM OVERVIEW"; s "It has four parts"]
     = [s "POWER PLATFORM OVERVIEW."; []; s "It has four parts."]
  /\ _structure_for_audio (s "POWER PLATFORM OVERVIEW")
     = s "POWER PLATFORM OVERVIEW." ++ [nl]
  /\ _structure_for_audio (s "This has no period") = s "This has no period.".
Proof.
  split; [intros text; unfold _structure_for_audio; cbv zeta;
          now rewrite structured_lines_of_spec|].
  split; [intros line; unfold emitted, closed;
          now destruct (_is_heading line), (ends_sentence line)|].
  repeat split; vm_compute; reflexivity.
Qed.

(** ** Trimming *)

Lemma hd_rev (d : ascii) (t : str) : hd d (rev t) = last t d.
Proof.
  induction t as [|c r IH] using rev_ind.
  - reflexivity.
  - now rewrite rev_app_distr, last_last.
Qed.

Lemma lstrip_keeps (t : str) :
  t = [] \/ Unicode.isspace (hd " " t) = false -> Py.lstrip t = t.
Proof.
  destruct t as [|c r]; [reflexivity|].
  intros [H|H]; [discriminate|]. simpl in *. now rewrite H.
Qed.

Lemma lstrip_hd (t : str) :
  Py.lstrip t <> [] -> Unicode.isspace (hd " " (Py.lstrip t)) = false.
Proof.
  induction t as [|c r IH]; simpl; [congruence|].
  destruct (Unicode.isspace c) eqn:E; [exact IH|]. intros _. exact E.
Qed.

Lemma lstrip_split (t : str) :
  exists front,
    t = front ++ Py.lstrip t /\ Forall (fun c => Unicode.isspace c = true) front.
Proof.
  induction t as [|c r [front [Heq Hall]]]; simpl.
  - exists []. now split.
  - destruct (Unicode.isspace c) eqn:E.
    + exists (c :: front). split; [simpl; congruence|now constructor].
    + exists []. now split.
Qed.

Lemma lstrip_snoc (t : str) (c : ascii) :
  Unicode.isspace c = false -> Py.lstrip (t ++ [c]) = Py.lstrip t ++ [c].
Proof.
  intros Hc. induction t as [|d r IH]; simpl.
  - now rewrite Hc.
  - now destruct (Unicode.isspace d).
Qed.

Lemma lstrip_spaces (front t : str) :
  Forall (fun c => Unicode.isspace c = true) front ->
  Py.lstrip (front ++ t) = Py.lstrip t.
Proof.
  induction 1 as [|c front Hc _ IH]; simpl; [reflexivity|]. now rewrite Hc.
Qed.

Lemma rstrip_split (t : str) :
  exists back,
    t = Py.rstrip t ++ back /\ Forall (fun c => Unicode.isspace c = true) back.
Proof.
  unfold Py.rstrip.
  destruct (lstrip_split (rev t)) as [front [Heq Hall]].
  exists (rev front). split.
  - rewrite <- rev_app_distr, <- Heq. now rewrite rev_involutive.
  - now apply Forall_rev.
Qed.

Lemma rstrip_keeps (t : str) :
  t = [] \/ Unicode.isspace (last t " ") = false -> Py.rstrip t = t.
Proof.
  intros H. unfold Py.rstrip. rewrite lstrip_keeps.
  - apply rev_involutive.
  - destruct H as [->|H]; [now left|right]. now rewrite hd_rev.
Qed.

Lemma rstrip_snoc_space (t : str) (c : ascii) :
  Unicode.isspace c = true -> Py.rstrip (t ++ [c]) = Py.rstrip t.
Proof.
  intros Hc. unfold Py.rstrip. rewrite rev_app_distr. simpl. now rewrite Hc.
Qed.

Lemma solid_strip (t : str) : solid t -> Py.strip t = t.
Proof.
  intros [_ [Hhd Hlast]]. unfold Py.strip.
  rewrite (lstrip_keeps t) by now right. apply rstrip_keeps. now right.
Qed.

Lemma strip_solid (t : str) : Py.strip t <> [] -> solid (Py.strip t).
Proof.
  unfold Py.strip, Py.rstrip. intros Hne.
  pose proof (lstrip_hd t) as Hhd.
  destruct (Py.lstrip t) as [|c r]; [now elim Hne|].
  specialize (Hhd ltac:(discriminate)). simpl hd in Hhd.
  simpl rev in *. rewrite (lstrip_snoc _ _ Hhd) in *.
  rewrite rev_app_distr in *. simpl in *.
  split; [discriminate|]. split; [exact Hhd|].
  change (c :: rev (Py.lstrip (rev r))) with ([c] ++ rev (Py.lstrip (rev r))).
  rewrite <- (rev_involutive [c]), <- rev_app_distr, <- hd_rev, rev_involutive.
  simpl rev. pose proof (lstrip_hd (rev r)) as Hr.
  destruct (Py.lstrip (rev r)) as [|d q]; [exact Hhd|].
  apply Hr. discriminate.
Qed.

Lemma strip_snoc_space (t : str) (c : ascii) :
  Unicode.isspace c = true -> Py.strip (t ++ [c]) = Py.strip t.
Proof.
  intros Hc. unfold Py.strip.
  destruct (lstrip_split t) as [front [Heq Hall]].
  destruct (Py.lstrip t) as [|d r] eqn:E.
  - rewrite app_nil_r in Heq. subst front.
    replace (Py.lstrip (t ++ [c])) with (@nil ascii); [reflexivity|].
    symmetry. rewrite lstrip_spaces by assumption. simpl. now rewrite Hc.
  - assert (Hd : Unicode.isspace d = false).
    { pose proof (lstrip_hd t) as H. rewrite E in H. apply H. discriminate. }
    rewrite Heq at 1. rewrite <- app_assoc, lstrip_spaces by assumption.
    simpl. rewrite Hd.
    change (d :: r ++ [c]) with ((d :: r) ++ [c]).
    now apply rstrip_snoc_space.
Qed.

Lemma solid_app (a middle b : str) :
  solid a -> solid b -> solid (a ++ middle ++ b).
Proof.
  intros [Ha [Hha _]] [Hb [_ Hlb]]. split; [|split].
  - destruct a; [now elim Ha|discriminate].
  - destruct a; [now elim Ha|exact Hha].
  - destruct b as [|c r _] using rev_ind; [now elim Hb|].
    rewrite !app_assoc, last_last. now rewrite last_last in Hlb.
Qed.

Lemma solid_snoc (a : str) (c : ascii) :
  solid a -> Unicode.isspace c = false -> solid (a ++ [c]).
Proof.
  intros Ha Hc. apply (solid_app a [] [c]); [exact Ha|].
  repeat split; try exact Hc. discriminate.
Qed.

(** ** Sentences and their emitted form *)

Lemma endswith_terminal (t : str) :
  Py.endswith t [s "."; s "!"; s "?"] = ends_sentence t.
Proof.
  unfold Py.endswith, Py.endswith1, ends_sentence, Py.char_in.
  rewrite <- hd_rev. destruct (rev t) as [|c r]; [reflexivity|].
  cbn [existsb hd s list_ascii_of_string Py.startswith1 rev app].
  destruct r; now rewrite !andb_true_r, !(Ascii.eqb_sym c).
Qed.

Lemma ends_sentence_not_space (t : str) :
  ends_sentence t = true -> Unicode.isspace (last t " ") = false.
Proof.
  unfold ends_sentence, Py.char_in. simpl. rewrite orb_false_r.
  intros H. apply orb_true_iff in H. destruct H as [H|H];
    [|apply orb_true_iff in H; destruct H as [H|H]];
    apply Ascii.eqb_eq in H; now rewrite H.
Qed.

Lemma ends_sentence_snoc (t : str) (c : ascii) :
  ends_sentence (t ++ [c]) = Py.char_in c (s ".!?").
Proof. unfold ends_sentence. now rewrite last_last. Qed.

Lemma terminated_closed (sentence : str) : terminated sentence = closed sentence.
Proof. unfold terminated, closed. now rewrite endswith_terminal. Qed.

Lemma closed_ends (t : str) : ends_sentence (closed t) = true.
Proof.
  unfold closed. destruct (ends_sentence t) eqn:E; [exact E|].
  exact (ends_sentence_snoc t ".").
Qed.

Lemma closed_solid (t : str) : solid t -> solid (closed t).
Proof.
  intros H. unfold closed. destruct (ends_sentence t); [exact H|].
  now apply solid_snoc.
Qed.

Lemma sentence_with_space_spec (sentence : str) :
  sentence_with_space sentence = terminated sentence ++ s " ".
Proof. reflexivity. Qed.

Lemma len_app (a b : str) : Py.len (a ++ b) = (Py.len a + Py.len b)%Z.
Proof. unfold Py.len. rewrite length_app. lia. Qed.

Lemma truthy_true (t : str) : truthy t = true <-> t <> [].
Proof. destruct t; simpl; split; congruence. Qed.

Lemma sentences_solid (text : str) : Forall solid (sentences_of text).
Proof.
  unfold sentences_of; cbv zeta. apply Forall_forall. intros x Hin.
  apply in_map_iff in Hin. destruct Hin as [y [<- Hy]].
  apply filter_In in Hy. destruct Hy as [_ Hy].
  apply strip_solid. now apply truthy_true.
Qed.

(** The running buffer of a group of sentences. *)
Lemma buffer_chunk (group : list str) :
  group <> [] ->
  concat (map sentence_with_space group) = chunk_of group ++ s " ".
Proof.
  unfold chunk_of.
  induction group as [|x g IH]; [congruence|]. intros _.
  destruct g as [|y g].
  - simpl. now rewrite app_nil_r.
  - specialize (IH ltac:(discriminate)).
    change (concat (map sentence_with_space (x :: y :: g)))
      with (sentence_with_space x ++ concat (map sentence_with_space (y :: g))).
    rewrite IH, sentence_with_space_spec.
    change (Py.join (s " ") (map terminated (x :: y :: g)))
      with (terminated x ++ s " " ++ Py.join (s " ") (map terminated (y :: g))).
    now rewrite <- !app_assoc.
Qed.

Lemma buffer_truthy (group : list str) :
  truthy (concat (map sentence_with_space group))
  = match group with [] => false | _ :: _ => true end.
Proof.
  destruct group as [|x g]; [reflexivity|].
  rewrite buffer_chunk by discriminate.
  destruct (chunk_of (x :: g)); reflexivity.
Qed.

Lemma chunk_solid (group : list str) :
  group <> [] -> Forall solid group ->
  solid (chunk_of group) /\ ends_sentence (chunk_of group) = true.
Proof.
  unfold chunk_of.
  induction group as [|x g IH]; [congruence|]. intros _ Hall.
  inversion Hall as [|? ? Hx Hg]; subst.
  assert (Hcx : solid (terminated x))
    by (rewrite terminated_closed; now apply closed_solid).
  destruct g as [|y g].
  - simpl. split; [exact Hcx|]. rewrite terminated_closed. apply closed_ends.
  - destruct (IH ltac:(discriminate) Hg) as [Hs He].
    change (Py.join (s " ") (map terminated (x :: y :: g)))
      with (terminated x ++ s " " ++ Py.join (s " ") (map terminated (y :: g))).
    split; [now apply solid_app|].
    revert He. unfold ends_sentence.
    destruct Hs as [Hne _].
    destruct (Py.join (s " ") (map terminated (y :: g))) as [|c r _]
      using rev_ind; [now elim Hne|].
    now rewrite !app_assoc, !last_last.
Qed.

(** ** The chunking loop *)

Lemma close_group (group : list str) :
  group <> [] -> Forall solid group ->
  Py.strip (concat (map sentence_with_space group)) = chunk_of group.
Proof.
  intros Hne Hall. rewrite buffer_chunk by assumption.
  change (s " ") with [" "].
  rewrite (strip_snoc_space (chunk_of group) " ") by reflexivity.
  apply solid_strip. now apply chunk_solid.
Qed.

Lemma group_within_bound (max_chunk_size : Z) (group : list str) :
  group <> [] ->
  (length group <= 1
   \/ (Py.len (concat (map sentence_with_space group)) <= max_chunk_size)%Z) ->
  within_bound max_chunk_size group.
Proof.
  intros Hne [Hone|Hfit].
  - destruct group as [|x [|y g]]; [now elim Hne| |simpl in Hone; lia].
    destruct (Z.le_gt_cases (Py.len (terminated x)) max_chunk_size) as [H|H].
    + now left.
    + right. exists x. split; [reflexivity|lia].
  - left. rewrite buffer_chunk, len_app in Hfit by assumption.
    unfold Py.len in *. simpl in Hfit. lia.
Qed.

Lemma chunk_step_spec (max_chunk_size : Z) (chunks group : list str) (x : str) :
  chunk_step max_chunk_size (chunks, concat (map sentence_with_space group)) x
  = if (Py.len (concat (map sentence_with_space group))
        + Py.len (sentence_with_space x) >? max_chunk_size)%Z
    then
      (match group with
       | [] => chunks
       | _ :: _ => chunks ++ [Py.strip (concat (map sentence_with_space group))]
       end,
       concat (map sentence_with_space [x]))
    else (chunks, concat (map sentence_with_space (group ++ [x]))).
Proof.
  unfold chunk_step. rewrite buffer_truthy, map_app, concat_app.
  simpl concat. rewrite app_nil_r. now destruct group.
Qed.

Lemma chunk_loop (max_chunk_size : Z) (sentences : list str) :
  forall (chunks : list str) (group : list str),
    Forall solid sentences -> Forall solid group ->
    (length group <= 1
     \/ (Py.len (concat (map sentence_with_space group)) <= max_chunk_size)%Z) ->
    exists groups,
      concat groups = group ++ sentences
      /\ (let (chunks', current_chunk) :=
            fold_left (chunk_step max_chunk_size) sentences
                      (chunks, concat (map sentence_with_space group)) in
          if truthy current_chunk then chunks' ++ [Py.strip current_chunk]
          else chunks')
         = chunks ++ map chunk_of groups
      /\ Forall (fun g => g <> [] /\ within_bound max_chunk_size g) groups.
Proof.
  induction sentences as [|x ss IH]; intros chunks group Hss Hgroup Hfit.
  - cbn [fold_left]. rewrite buffer_truthy.
    destruct group as [|y g].
    + exists []. simpl. rewrite app_nil_r. now repeat split.
    + exists [y :: g]. rewrite close_group by (assumption || discriminate).
      simpl. rewrite app_nil_r. repeat split.
      constructor; [|constructor]. split; [discriminate|].
      apply group_within_bound; [discriminate|assumption].
  - inversion Hss as [|? ? Hx Hss']; subst.
    cbn [fold_left]. rewrite chunk_step_spec.
    destruct (Z.gtb_spec
                (Py.len (concat (map sentence_with_space group))
                 + Py.len (sentence_with_space x)) max_chunk_size) as [Hover|Hin].
    + destruct group as [|y g].
      * destruct (IH chunks [x]) as [groups [Hcat [Hrun Hok]]];
          [assumption|now constructor|left; simpl; lia|].
        exists groups. now repeat split.
      * rewrite close_group by (assumption || discriminate).
        destruct (IH (chunks ++ [chunk_of (y :: g)]) [x])
          as [groups [Hcat [Hrun Hok]]];
          [assumption|now constructor|left; simpl; lia|].
        exists ((y :: g) :: groups). split; [|split].
        -- simpl. now rewrite Hcat.
        -- rewrite Hrun. simpl. now rewrite <- app_assoc.
        -- constructor; [|exact Hok]. split; [discriminate|].
           apply group_within_bound; [discriminate|assumption].
    + destruct (IH chunks (group ++ [x])) as [groups [Hcat [Hrun Hok]]].
      * assumption.
      * apply Forall_app. split; [assumption|now constructor].
      * right. rewrite map_app, concat_app, len_app. simpl concat.
        rewrite app_nil_r. exact Hin.
      * exists groups. rewrite <- app_assoc in Hcat. now repeat split.
Qed.

(** The chunks are the groups of a partition of the sentence list into
    consecutive non-empty groups, each within the bound or a single
    sentence. *)
Lemma chunks_grouping (max_chunk_size : Z) (sentences : list str) :
  Forall solid sentences ->
  exists groups,
    concat groups = sentences
    /\ chunks_of max_chunk_size sentences = map chunk_of groups
    /\ Forall (fun g => g <> [] /\ within_bound max_chunk_size g) groups.
Proof.
  intros Hall.
  destruct (chunk_loop max_chunk_size sentences [] [] Hall)
    as [groups [Hcat [Hrun Hok]]]; [constructor|left; simpl; lia|].
  exists groups. now repeat split.
Qed.

Lemma concat_solid (groups : list (list str)) :
  Forall solid (concat groups) -> Forall (Forall solid) groups.
Proof.
  induction groups as [|g gs IH]; simpl; intros H; [constructor|].
  apply Forall_app in H. destruct H as [Hg Hgs]. constructor; auto.
Qed.

Lemma join_cons (sep p : str) (ps : list str) :
  ps <> [] -> Py.join sep (p :: ps) = p ++ sep ++ Py.join sep ps.
Proof. destruct ps; [congruence|reflexivity]. Qed.

Lemma join_app (sep : str) (a b : list str) :
  a <> [] -> b <> [] ->
  Py.join sep (a ++ b) = Py.join sep a ++ sep ++ Py.join sep b.
Proof.
  intros Ha Hb. induction a as [|x a IH]; [congruence|].
  destruct a as [|y a].
  - simpl. destruct b; [congruence|reflexivity].
  - change (Py.join sep ((x :: y :: a) ++ b))
      with (x ++ sep ++ Py.join sep ((y :: a) ++ b)).
    rewrite IH by discriminate.
    change (Py.join sep (x :: y :: a)) with (x ++ sep ++ Py.join sep (y :: a)).
    now rewrite <- !app_assoc.
Qed.

Lemma join_concat (sep : str) (groups : list (list str)) :
  Forall (fun g => g <> []) groups ->
  Py.join sep (map (Py.join sep) groups) = Py.join sep (concat groups).
Proof.
  induction 1 as [|g gs Hg Hgs IH]; [reflexivity|].
  destruct gs as [|h gs].
  - simpl. now rewrite app_nil_r.
  - change (Py.join sep (map (Py.join sep) (g :: h :: gs)))
      with (Py.join sep g ++ sep ++ Py.join sep (map (Py.join sep) (h :: gs))).
    rewrite IH. change (concat (g :: h :: gs)) with (g ++ concat (h :: gs)).
    rewrite join_app; [reflexivity|assumption|].
    inversion Hgs; subst. destruct h; [congruence|discriminate].
Qed.

(** C10: every chunk is non-empty, ends in [.], [!] or [?], and carries no
    leading or trailing whitespace. *)
Theorem chunks_end_with_terminal_punctuation (text : str) (max_chunk_size : Z) :
  exists chunks,
    split_into_chunks (Some text) max_chunk_size = inl chunks
    /\ Forall (fun chunk =>
                 chunk <> []
                 /\ ends_sentence chunk = true
                 /\ Py.strip chunk = chunk) chunks.
Proof.
  destruct (chunks_grouping max_chunk_size (sentences_of text)
              (sentences_solid text)) as [groups [Hcat [Hrun Hok]]].
  exists (map chunk_of groups). split; [simpl; now rewrite Hrun|].
  pose proof (sentences_solid text) as Hall. rewrite <- Hcat in Hall.
  apply concat_solid in Hall.
  apply Forall_map. apply Forall_forall. intros g Hin.
  rewrite Forall_forall in Hok, Hall.
  destruct (Hok g Hin) as [Hne _].
  destruct (chunk_solid g Hne (Hall g Hin)) as [Hsolid Hends].
  split; [apply Hsolid|]. split; [exact Hends|now apply solid_strip].
Qed.

(** ** Matching and substituting a repeated class *)

Lemma span_le_length (p : ascii -> bool) (t : str) : span p t <= length t.
Proof.
  induction t as [|c r IH]; simpl; [lia|]. destruct (p c); simpl; lia.
Qed.

Lemma rep_accept (p : ascii -> bool) (t : str) :
  forall lo prev,
    Re.rep p lo prev t Re.accept
    = if lo <=? span p t then Some (skipn (span p t) t) else None.
Proof.
  induction t as [|c r IH]; intros lo prev.
  - simpl. now destruct lo.
  - cbn [Re.rep span]. destruct (p c) eqn:Hc.
    + rewrite IH. cbn [skipn].
      destruct lo as [|lo]; cbn [pred].
      * now destruct (0 <=? span p r) eqn:E; [|apply Nat.leb_gt in E; lia].
      * change (S lo <=? S (span p r)) with (lo <=? span p r).
        now destruct (lo <=? span p r).
    + now destruct lo.
Qed.

Lemma match_len_rep (p : ascii -> bool) (lo : nat) (prev : option ascii) (t : str) :
  Re.match_len (Re.Rep p lo) prev t
  = if lo <=? span p t then Some (span p t) else None.
Proof.
  unfold Re.match_len. cbn [Re.run]. rewrite rep_accept.
  destruct (lo <=? span p t); [|reflexivity].
  rewrite length_skipn. f_equal. pose proof (span_le_length p t). lia.
Qed.

Lemma match_len_cls (p : ascii -> bool) (prev : option ascii) (c : ascii) (r : str) :
  Re.match_len (Re.Cls p) prev (c :: r) = if p c then Some 1 else None.
Proof.
  unfold Re.match_len. cbn [Re.run]. destruct (p c); [|reflexivity].
  unfold Re.accept. f_equal. cbn [length]. lia.
Qed.

Lemma squash_run (p : ascii -> bool) (e : ascii) (t : str) :
  forall k, span p t = S k -> squash p e t = e :: squash p e (skipn (S k) t).
Proof.
  induction t as [|c r IH]; intros k; cbn [span]; [discriminate|].
  destruct (p c) eqn:Hc; [|discriminate]. intros Hk. injection Hk as Hk.
  cbn [squash skipn]. rewrite Hc. destruct r as [|d q].
  - simpl in Hk. subst k. reflexivity.
  - cbn [span] in Hk. destruct (p d) eqn:Hd.
    + destruct k as [|k]; [discriminate|]. now apply IH; cbn [span]; rewrite Hd.
    + subst k. reflexivity.
Qed.

(** Substituting one character [e] for the runs of a class is [squash],
    for [p+] and, when the class is the one character [e], for [p{2,}]. *)
Lemma sub_rep_squash (p : ascii -> bool) (e : ascii) (lo : nat) :
  lo = 0 \/ (lo = 1 /\ forall c, p c = true -> c = e) ->
  forall t n prev,
    n <= length t ->
    Re.sub_from (Re.Rep p (S lo)) [e] n prev t = squash p e (skipn n t).
Proof.
  intros Hlo. induction t as [|c r IH]; intros n prev Hn.
  - simpl in Hn. now replace n with 0 by lia.
  - destruct n as [|n]; cbn [Re.sub_from skipn].
    + rewrite match_len_rep.
      destruct (S lo <=? span p (c :: r)) eqn:E.
      * apply Nat.leb_le in E.
        destruct (span p (c :: r)) as [|k] eqn:Hk; [lia|].
        rewrite (squash_run p e (c :: r) k Hk). cbn [app skipn].
        f_equal. apply IH.
        pose proof (span_le_length p (c :: r)) as Hle.
        rewrite Hk in Hle. cbn [length] in Hle. lia.
      * apply Nat.leb_gt in E. rewrite (IH 0) by lia. cbn [skipn squash].
        cbn [span] in E. destruct (p c) eqn:Hc; [|reflexivity].
        destruct Hlo as [->|[-> Hp]]; [lia|].
        rewrite (Hp c Hc). destruct r as [|d q]; [reflexivity|].
        cbn [span] in E. destruct (p d); [lia|reflexivity].
    + apply IH. simpl in Hn. lia.
Qed.

Lemma sub_cls_filter (p : ascii -> bool) :
  forall t n prev,
    n <= length t ->
    Re.sub_from (Re.Cls p) [] n prev t
    = filter (fun c => negb (p c)) (skipn n t).
Proof.
  induction t as [|c r IH]; intros n prev Hn.
  - simpl in Hn. now replace n with 0 by lia.
  - destruct n as [|n]; cbn [Re.sub_from skipn].
    + rewrite match_len_cls. cbn [filter].
      destruct (p c); cbn [negb app]; rewrite (IH 0) by lia; reflexivity.
    + apply IH. simpl in Hn. lia.
Qed.

(** The pattern for newline runs finds nothing in a text without newline,
    also when one newline ends it. *)
Lemma match_len_newline_run (prev : option ascii) (c : ascii) (r : str) :
  c <> nl -> Re.match_len newline_run prev (c :: r) = None.
Proof.
  intros Hc. unfold Re.match_len, newline_run, Re.chr. cbn [Re.run].
  now rewrite (eqb_nl_false c Hc).
Qed.

Lemma sub_newline_run_none (repl : str) (tail : str) :
  tail = [] \/ tail = [nl] ->
  forall t prev,
    Forall (fun c => c <> nl) t ->
    Re.sub_from newline_run repl 0 prev (t ++ tail) = t ++ tail.
Proof.
  intros Htail. induction t as [|c r IH]; intros prev Hall.
  - destruct Htail as [->| ->]; reflexivity.
  - inversion Hall as [|? ? Hc Hr]; subst.
    cbn [app Re.sub_from]. rewrite match_len_newline_run by assumption.
    now rewrite IH.
Qed.

(** ** Adjacent characters *)

Lemma has_pair_cons (a b c : ascii) (t : str) :
  has_pair a b (c :: t)
  <-> (c = a /\ exists r, t = b :: r) \/ has_pair a b t.
Proof.
  split.
  - intros [front [back H]]. destruct front as [|x front].
    + injection H as -> ->. left. split; [reflexivity|now exists back].
    + injection H as -> ->. right. now exists front, back.
  - intros [[-> [r ->]]|[front [back ->]]].
    + now exists [], r.
    + now exists (c :: front), back.
Qed.

Lemma has_pair_nil (a b : ascii) : ~ has_pair a b [].
Proof. intros [front [back H]]. now destruct front. Qed.

Lemma has_pair_app (a b : ascii) (front t back : str) :
  has_pair a b t -> has_pair a b (front ++ t ++ back).
Proof.
  intros [f [k ->]]. exists (front ++ f), (k ++ back).
  now rewrite <- !app_assoc.
Qed.

Lemma has_pair_snoc (a b c : ascii) (t : str) :
  has_pair a b (t ++ [c]) ->
  has_pair a b t \/ (c = b /\ exists front, t = front ++ [a]).
Proof.
  intros [front [back H]].
  destruct back as [|x back _] using rev_ind.
  - right. change (front ++ [a; b]) with (front ++ [a] ++ [b]) in H.
    rewrite app_assoc in H. apply app_inj_tail in H. destruct H as [-> ->].
    split; [reflexivity|now exists front].
  - left. change (front ++ a :: b :: back ++ [x])
      with (front ++ (a :: b :: back) ++ [x]) in H.
    rewrite app_assoc in H. apply app_inj_tail in H. destruct H as [-> _].
    now exists front, back.
Qed.

Lemma has_pair_in (a b : ascii) (t : str) :
  has_pair a b t -> In a t /\ In b t.
Proof.
  intros [front [back ->]]. split; apply in_or_app; right; simpl; auto.
Qed.

(** ** Properties of [squash] *)

Lemma squash_forall (Q : ascii -> Prop) (p : ascii -> bool) (e : ascii) (t : str) :
  Q e -> Forall Q t -> Forall Q (squash p e t).
Proof.
  intros He. induction 1 as [|c r Hc Hr IH]; cbn [squash]; [constructor|].
  destruct (p c).
  - destruct r as [|d q]; [now repeat constructor|].
    destruct (p d); [exact IH|now constructor].
  - now constructor.
Qed.

Lemma squash_class (p : ascii -> bool) (e : ascii) (t : str) :
  Forall (fun c => p c = true -> c = e) (squash p e t).
Proof.
  induction t as [|c r IH]; cbn [squash]; [constructor|].
  destruct (p c) eqn:Hc.
  - destruct r as [|d q]; [now repeat constructor|].
    destruct (p d); [exact IH|now constructor].
  - constructor; [congruence|exact IH].
Qed.

Lemma squash_no_adjacent (p : ascii -> bool) (e : ascii) (t : str) (a b : ascii) :
  has_pair a b (squash p e t) -> p a = true -> p b = true -> False.
Proof.
  intros H Ha Hb. induction t as [|c r IH]; cbn [squash] in H.
  - now apply has_pair_nil in H.
  - destruct (p c) eqn:Hc.
    + destruct r as [|d q]; cbn [squash] in *.
      * apply has_pair_cons in H. destruct H as [[_ [r H]]|H];
          [discriminate|now apply has_pair_nil in H].
      * destruct (p d) eqn:Hd; [now apply IH|].
        apply has_pair_cons in H. destruct H as [[_ [r H]]|H]; [|now apply IH].
        injection H as -> _. congruence.
    + apply has_pair_cons in H. destruct H as [[-> _]|H]; [congruence|].
      now apply IH.
Qed.

Lemma squash_id (p : ascii -> bool) (e : ascii) (t : str) :
  Forall (fun c => p c = true -> c = e) t ->
  (forall a b, has_pair a b t -> p a = true -> p b = true -> False) ->
  squash p e t = t.
Proof.
  induction 1 as [|c r Hc Hr IH]; intros Hpairs; cbn [squash]; [reflexivity|].
  assert (IH' : squash p e r = r).
  { apply IH. intros a b H. apply (Hpairs a b). apply has_pair_cons. now right. }
  destruct (p c) eqn:Ec.
  - rewrite (Hc eq_refl) in *. destruct r as [|d q]; [reflexivity|].
    destruct (p d) eqn:Ed.
    + exfalso. apply (Hpairs e d); [|assumption..].
      apply has_pair_cons. left. split; [reflexivity|now exists q].
    + now rewrite IH'.
  - now rewrite IH'.
Qed.

Lemma squash_cons2 (p : ascii -> bool) (e c d : ascii) (q : str) :
  squash p e (c :: d :: q)
  = if p c then
      if p d then squash p e (d :: q) else e :: squash p e (d :: q)
    else c :: squash p e (d :: q).
Proof. reflexivity. Qed.

Lemma squash_head (e d : ascii) (q : str) :
  exists rest, squash (Ascii.eqb e) e (d :: q) = d :: rest.
Proof.
  revert d. induction q as [|x q IH]; intros d.
  - cbn [squash].
    destruct (Ascii.eqb e d) eqn:E; [apply Ascii.eqb_eq in E; subst|]; eauto.
  - rewrite squash_cons2. destruct (Ascii.eqb e d) eqn:E; [|eauto].
    apply Ascii.eqb_eq in E; subst d.
    destruct (Ascii.eqb e x) eqn:Ex; [|eauto].
    apply Ascii.eqb_eq in Ex; subst x. apply IH.
Qed.

Lemma squash_pairs (e : ascii) (t : str) (a b : ascii) :
  has_pair a b (squash (Ascii.eqb e) e t) -> has_pair a b t.
Proof.
  induction t as [|c r IH]; [trivial|].
  destruct r as [|d q].
  - cbn [squash]. destruct (Ascii.eqb e c); intros H;
      apply has_pair_cons in H; destruct H as [[_ [r H]]|H];
      try discriminate; now apply has_pair_nil in H.
  - destruct (squash_head e d q) as [rest Hrest].
    rewrite squash_cons2. intros H. apply has_pair_cons.
    destruct (Ascii.eqb e c) eqn:Ec.
    + apply Ascii.eqb_eq in Ec; subst c.
      destruct (Ascii.eqb e d) eqn:Ed; [right; now apply IH|].
      apply has_pair_cons in H. destruct H as [[<- [r H]]|H]; [|right; now apply IH].
      left. split; [reflexivity|]. rewrite Hrest in H. injection H as -> _.
      now exists q.
    + apply has_pair_cons in H. destruct H as [[<- [r H]]|H]; [|right; now apply IH].
      left. split; [reflexivity|]. rewrite Hrest in H. injection H as -> _.
      now exists q.
Qed.

Lemma squash_snoc (p : ascii -> bool) (e c : ascii) (t : str) :
  p c = false -> squash p e (t ++ [c]) = squash p e t ++ [c].
Proof.
  intros Hc. induction t as [|x r IH]; cbn [squash app].
  - now rewrite Hc.
  - destruct (p x).
    + destruct r as [|d q]; cbn [app].
      * rewrite Hc. cbn [squash]. now rewrite Hc.
      * cbn [app] in IH. destruct (p d); now rewrite IH.
    + now rewrite IH.
Qed.

Lemma space_not_solid_end (c : ascii) :
  Unicode.isspace c = false -> Ascii.eqb " " c = false.
Proof.
  intros H. apply Ascii.eqb_neq. intros <-. discriminate.
Qed.

Lemma squash_solid (t : str) : solid t -> solid (squash (Ascii.eqb " ") " " t).
Proof.
  intros [Hne [Hhd Hlast]].
  destruct t as [|c r _] using rev_ind; [now elim Hne|].
  rewrite last_last in Hlast.
  rewrite squash_snoc by now apply space_not_solid_end.
  split; [now destruct (squash (Ascii.eqb " ") " " r)|].
  split; [|now rewrite last_last].
  destruct r as [|d q]; [exact Hlast|].
  destruct (squash_head " " d q) as [rest ->]. exact Hhd.
Qed.

Lemma squash_ends (t : str) :
  solid t -> ends_sentence (squash (Ascii.eqb " ") " " t) = ends_sentence t.
Proof.
  intros [Hne [_ Hlast]].
  destruct t as [|c r _] using rev_ind; [now elim Hne|].
  rewrite last_last in Hlast.
  rewrite squash_snoc by now apply space_not_solid_end.
  now rewrite !ends_sentence_snoc.
Qed.

(** ** The cleanup patterns *)

Lemma plain_spaces_no_newline (t : str) :
  plain_spaces t -> Forall (fun c => c <> nl) t.
Proof.
  apply Forall_impl. intros c H ->. specialize (H nl_isspace). discriminate.
Qed.

Lemma eqb_class (e c : ascii) : Ascii.eqb e c = true -> c = e.
Proof. intros H. apply Ascii.eqb_eq in H. now subst. Qed.

Lemma basic_cleanup_squash (t : str) :
  _basic_cleanup t
  = squash (Ascii.eqb "!") "!"
      (squash (Ascii.eqb "?") "?"
         (squash (Ascii.eqb ".") "."
            (filter (fun c => negb (problematic c))
                    (squash Unicode.isspace " " t)))).
Proof.
  unfold _basic_cleanup, cleanup_patterns, Re.sub. cbn [fold_left].
  change (s " ") with [" "]; change (s ".") with ["."];
    change (s "?") with ["?"]; change (s "!") with ["!"].
  unfold whitespace_run.
  rewrite (sub_rep_squash Unicode.isspace " " 0) by (auto || lia).
  cbn [skipn].
  pose proof (sub_newline_run_none [nl; nl] [] (or_introl eq_refl)
                (squash Unicode.isspace " " t) None) as Hnl.
  rewrite app_nil_r in Hnl. rewrite Hnl
    by (apply plain_spaces_no_newline, squash_class).
  rewrite sub_cls_filter by lia. cbn [skipn].
  rewrite !(sub_rep_squash _ _ 1) by (auto using eqb_class || lia).
  reflexivity.
Qed.

Lemma basic_cleanup_tidy (t : str) : tidy (_basic_cleanup t).
Proof.
  rewrite basic_cleanup_squash.
  set (v := filter _ (squash Unicode.isspace " " t)).
  assert (Hplain : plain_spaces v).
  { pose proof (squash_class Unicode.isspace " " t) as Hclass.
    rewrite Forall_forall in Hclass.
    apply Forall_forall. intros c Hin. apply filter_In in Hin.
    destruct Hin as [Hin _]. now apply Hclass. }
  assert (Hok : Forall (fun c => problematic c = false) v).
  { apply Forall_forall. intros c Hin. apply filter_In in Hin.
    destruct Hin as [_ Hc]. now apply negb_true_iff. }
  clearbody v. unfold tidy, plain_spaces.
  split; [|split; [|split; [|split]]].
  - repeat apply squash_forall; trivial; discriminate.
  - repeat apply squash_forall; trivial.
  - intros H. do 2 apply squash_pairs in H.
    now apply squash_no_adjacent in H.
  - intros H. apply squash_pairs in H. now apply squash_no_adjacent in H.
  - intros H. now apply squash_no_adjacent in H.
Qed.

Lemma filter_all (A : Type) (f : A -> bool) (l : list A) :
  Forall (fun x => f x = true) l -> filter f l = l.
Proof.
  induction 1 as [|x l Hx _ IH]; simpl; [reflexivity|]. now rewrite Hx, IH.
Qed.

(** A tidy text without doubled spaces is left as it is by the cleanup
    patterns. *)
Lemma basic_cleanup_fixed (t : str) :
  tidy t -> ~ has_pair " " " " t -> _basic_cleanup t = t.
Proof.
  intros [Hplain [Hok [Hdot [Hquestion Hbang]]]] Hspace.
  rewrite basic_cleanup_squash.
  rewrite (squash_id Unicode.isspace " " t).
  - rewrite filter_all
      by (apply Forall_impl with (2 := Hok); intros c Hc; now rewrite Hc).
    rewrite (squash_id (Ascii.eqb ".") "." t).
    + rewrite (squash_id (Ascii.eqb "?") "?" t).
      * apply squash_id.
        -- apply Forall_forall. intros c _. apply eqb_class.
        -- intros a b H Ha Hb. apply eqb_class in Ha, Hb. now subst.
      * apply Forall_forall. intros c _. apply eqb_class.
      * intros a b H Ha Hb. apply eqb_class in Ha, Hb. now subst.
    + apply Forall_forall. intros c _. apply eqb_class.
    + intros a b H Ha Hb. apply eqb_class in Ha, Hb. now subst.
  - exact Hplain.
  - intros a b H Ha Hb. apply Hspace.
    destruct (has_pair_in a b t H) as [Hina Hinb].
    unfold plain_spaces in Hplain. rewrite Forall_forall in Hplain.
    rewrite (Hplain a Hina Ha), (Hplain b Hinb Hb) in H. exact H.
Qed.

(** ** A one-line text through the pipeline *)

Lemma split_on_none (sep : ascii) (t : str) :
  Forall (fun c => c <> sep) t -> Py.split_on sep t = [t].
Proof.
  induction 1 as [|c r Hc _ IH]; cbn [Py.split_on]; [reflexivity|].
  apply Ascii.eqb_neq in Hc. now rewrite Hc, IH.
Qed.

Lemma split_on_trailing (sep : ascii) (t : str) :
  Forall (fun c => c <> sep) t -> Py.split_on sep (t ++ [sep]) = [t; []].
Proof.
  induction 1 as [|c r Hc _ IH]; cbn [Py.split_on app].
  - now rewrite Ascii.eqb_refl.
  - apply Ascii.eqb_neq in Hc. now rewrite Hc, IH.
Qed.

Lemma strip_split (t : str) :
  exists front back,
    t = front ++ Py.strip t ++ back
    /\ Forall (fun c => Unicode.isspace c = true) front
    /\ Forall (fun c => Unicode.isspace c = true) back.
Proof.
  unfold Py.strip.
  destruct (lstrip_split t) as [front [Hfront Hf]].
  destruct (rstrip_split (Py.lstrip t)) as [back [Hback Hb]].
  exists front, back. now rewrite <- Hback.
Qed.

Lemma strip_forall (Q : ascii -> Prop) (t : str) :
  Forall Q t -> Forall Q (Py.strip t).
Proof.
  destruct (strip_split t) as [front [back [H _]]]. intros Hall.
  rewrite H in Hall. apply Forall_app in Hall. destruct Hall as [_ Hall].
  apply Forall_app in Hall. tauto.
Qed.

Lemma strip_pairs (a b : ascii) (t : str) :
  has_pair a b (Py.strip t) -> has_pair a b t.
Proof.
  destruct (strip_split t) as [front [back [H _]]]. intros Hp.
  rewrite H. now apply has_pair_app.
Qed.

Lemma strip_tidy (t : str) : tidy t -> tidy (Py.strip t).
Proof.
  intros [Hplain [Hok [Hdot [Hquestion Hbang]]]].
  repeat split; try (now apply strip_forall);
    intros H; apply strip_pairs in H; tauto.
Qed.

Lemma strip_strip (t : str) : Py.strip (Py.strip t) = Py.strip t.
Proof.
  destruct (Py.strip t) as [|c r] eqn:E; [reflexivity|].
  rewrite <- E. apply solid_strip, strip_solid. congruence.
Qed.

Lemma filter_one_line (t : str) :
  Forall (fun c => c <> nl) t ->
  _filter_unwanted_content t
  = if is_noise (Py.strip t) then [] else Py.strip t.
Proof.
  intros Hall. unfold _filter_unwanted_content; cbv zeta.
  rewrite split_on_none, filtered_lines_of_spec by assumption.
  cbn [map filter]. now destruct (is_noise (Py.strip t)).
Qed.

Lemma heading_not_ended (line : str) :
  _is_heading line = true -> ends_sentence line = false.
Proof.
  unfold _is_heading. intros H. rewrite <- endswith_terminal.
  apply andb_true_iff in H. destruct H as [H _].
  apply andb_true_iff in H. destruct H as [_ H].
  apply negb_true_iff in H. unfold Py.endswith in *. cbn [existsb] in *.
  repeat (apply orb_false_iff in H; destruct H as [? H]).
  repeat (apply orb_false_iff; split); assumption.
Qed.

Lemma structure_one_line (line : str) :
  line = [] \/ solid line ->
  Forall (fun c => c <> nl) line ->
  _structure_for_audio line
  = if truthy line
    then closed line ++ (if _is_heading line then [nl] else [])
    else [].
Proof.
  intros Hline Hall. unfold _structure_for_audio; cbv zeta.
  rewrite split_on_none, structured_lines_of_spec by assumption.
  cbn [map filter].
  assert (Hstrip : Py.strip line = line)
    by (destruct Hline as [->|Hs]; [reflexivity|now apply solid_strip]).
  rewrite Hstrip. destruct (truthy line); [|reflexivity].
  cbn [flat_map]. rewrite app_nil_r. unfold emitted.
  destruct (_is_heading line) eqn:E.
  - unfold closed. rewrite (heading_not_ended line E). reflexivity.
  - cbn [Py.join]. now rewrite app_nil_r.
Qed.

Lemma normalize_one_line (t tail : str) :
  tail = [] \/ tail = [nl] ->
  plain_spaces t ->
  _normalize_spacing (t ++ tail)
  = Py.strip (squash (Ascii.eqb " ") " " t) ++ tail.
Proof.
  intros Htail Hplain. unfold _normalize_spacing, Re.sub; cbv zeta.
  change (s " ") with [" "].
  rewrite (sub_rep_squash (Ascii.eqb " ") " " 0) by (auto || lia).
  cbn [skipn].
  assert (Hsq : squash (Ascii.eqb " ") " " (t ++ tail)
                = squash (Ascii.eqb " ") " " t ++ tail).
  { destruct Htail as [-> | ->]; [now rewrite !app_nil_r|].
    now apply squash_snoc. }
  rewrite Hsq.
  assert (Hno : Forall (fun c => c <> nl) (squash (Ascii.eqb " ") " " t)).
  { apply squash_forall; [discriminate|].
    now apply plain_spaces_no_newline. }
  rewrite sub_newline_run_none by assumption.
  destruct Htail as [-> | ->].
  - rewrite !app_nil_r, split_on_none by assumption. reflexivity.
  - rewrite split_on_trailing by assumption. reflexivity.
Qed.

Lemma closed_tidy (line : str) : tidy line -> tidy (closed line).
Proof.
  intros Htidy. unfold closed. destruct (ends_sentence line) eqn:E; [exact Htidy|].
  destruct Htidy as [Hplain [Hok [Hdot [Hquestion Hbang]]]].
  assert (Hpair : forall d, has_pair d d (line ++ s ".") ->
                            has_pair d d line \/ d = ".").
  { intros d H. apply has_pair_snoc in H. destruct H as [H|[<- _]]; auto. }
  repeat split.
  - apply Forall_app. split; [exact Hplain|]. repeat constructor. discriminate.
  - apply Forall_app. split; [exact Hok|]. now repeat constructor.
  - intros H. apply has_pair_snoc in H. destruct H as [H|[_ [front ->]]]; [tauto|].
    now rewrite (ends_sentence_snoc front ".") in E.
  - intros H. apply Hpair in H. destruct H; [tauto|discriminate].
  - intros H. apply Hpair in H. destruct H; [tauto|discriminate].
Qed.

Lemma squash_tidy (t : str) : tidy t -> tidy (squash (Ascii.eqb " ") " " t).
Proof.
  intros [Hplain [Hok [Hdot [Hquestion Hbang]]]].
  repeat split; try (now apply squash_forall);
    intros H; apply squash_pairs in H; tauto.
Qed.

Lemma is_noise_short (line : str) : is_noise line = false -> line <> [].
Proof. now intros H ->. Qed.

(** The whole pipeline on a non-empty text: the cleaned text is one line;
    it is dropped when it is noise, else it gets its full stop and single
    spaces. *)
Lemma clean_and_structure_spec (raw_text : str) :
  raw_text <> [] ->
  clean_and_structure (Some raw_text)
  = if is_noise (Py.strip (_basic_cleanup raw_text)) then []
    else squash (Ascii.eqb " ") " " (closed (Py.strip (_basic_cleanup raw_text))).
Proof.
  intros Hne. destruct raw_text as [|a raw]; [now elim Hne|].
  cbn [clean_and_structure]. cbv zeta.
  pose proof (basic_cleanup_tidy (a :: raw)) as Htidy.
  set (u := _basic_cleanup (a :: raw)) in *. clearbody u.
  rewrite filter_one_line by (apply plain_spaces_no_newline, Htidy).
  apply strip_tidy in Htidy.
  destruct (is_noise (Py.strip u)) eqn:Enoise; [reflexivity|].
  assert (Hsolid : solid (Py.strip u))
    by (apply strip_solid; now apply is_noise_short).
  set (line := Py.strip u) in *. clearbody line.
  rewrite structure_one_line;
    [|now right|apply plain_spaces_no_newline, Htidy].
  replace (truthy line) with true
    by (symmetry; apply truthy_true, Hsolid).
  apply closed_tidy in Htidy. apply closed_solid in Hsolid.
  assert (Hfinal : forall tail, tail = [] \/ tail = [nl] ->
            Py.strip (_normalize_spacing (closed line ++ tail))
            = squash (Ascii.eqb " ") " " (closed line)).
  { intros tail Htail. rewrite normalize_one_line by (assumption || apply Htidy).
    rewrite (solid_strip (squash _ _ _)) by now apply squash_solid.
    destruct Htail as [-> | ->].
    - rewrite app_nil_r. now apply solid_strip, squash_solid.
    - rewrite strip_snoc_space by reflexivity.
      now apply solid_strip, squash_solid. }
  destruct (_is_heading line); apply Hfinal; auto.
Qed.

(** What the pipeline returns, when not empty. *)
Lemma result_shape (line : str) :
  tidy line -> solid line ->
  let result := squash (Ascii.eqb " ") " " (closed line) in
  tidy result /\ solid result /\ ends_sentence result = true
  /\ ~ has_pair " " " " result.
Proof.
  intros Htidy Hsolid result. subst result.
  apply closed_tidy in Htidy. pose proof (closed_ends line) as Hends.
  apply closed_solid in Hsolid.
  split; [now apply squash_tidy|]. split; [now apply squash_solid|].
  split; [now rewrite squash_ends|].
  intros H. now apply squash_no_adjacent in H.
Qed.

(** C9: the cleanup patterns leave no newline in any text, and the string
    returned by [clean_and_structure] contains no newline. *)
Theorem output_is_a_single_line :
  (forall text, Forall (fun c => c <> nl) (_basic_cleanup text))
  /\ (forall raw_text, Forall (fun c => c <> nl) (clean_and_structure raw_text)).
Proof.
  split.
  - intros text. apply plain_spaces_no_newline, basic_cleanup_tidy.
  - intros [[|a raw]|]; [constructor| |constructor].
    rewrite clean_and_structure_spec by discriminate.
    destruct (is_noise _) eqn:Enoise; [constructor|].
    apply plain_spaces_no_newline.
    apply result_shape.
    + apply strip_tidy, basic_cleanup_tidy.
    + apply strip_solid. now apply is_noise_short.
Qed.

(** C6, as the code has it: a second pass returns the output of the first
    pass unchanged, unless that output is a noise line for the filter, and
    then it returns the empty string; the output of the first pass is never
    classified as a heading. *)
Theorem second_pass_keeps_or_drops (raw_text : option str) :
  clean_and_structure (Some (clean_and_structure raw_text))
  = (if is_noise (clean_and_structure raw_text) then []
     else clean_and_structure raw_text)
  /\ _is_heading (clean_and_structure raw_text) = false.
Proof.
  destruct raw_text as [[|a raw]|]; [now split| |now split].
  rewrite (clean_and_structure_spec (a :: raw)) by discriminate.
  destruct (is_noise (Py.strip _)) eqn:Enoise; [now split|].
  destruct (result_shape (Py.strip (_basic_cleanup (a :: raw))))
    as [Htidy [Hsolid [Hends Hspace]]].
  { apply strip_tidy, basic_cleanup_tidy. }
  { apply strip_solid. now apply is_noise_short. }
  set (result := squash _ _ _) in *. clearbody result. split.
  - rewrite clean_and_structure_spec by apply Hsolid.
    rewrite basic_cleanup_fixed, solid_strip by assumption.
    destruct (is_noise result); [reflexivity|].
    unfold closed. rewrite Hends. apply squash_id.
    + apply Forall_forall. intros c _. apply eqb_class.
    + intros a' b' H Ha Hb. apply eqb_class in Ha, Hb. subst. now apply Hspace.
  - destruct (_is_heading result) eqn:E; [|reflexivity].
    apply heading_not_ended in E. congruence.
Qed.

(** C6 as stated fails: the text "100" becomes "100.", which the second pass
    drops as a step marker. *)
Lemma second_pass_drops_numbered_line :
  clean_and_structure (Some (s "100")) = s "100."
  /\ clean_and_structure (Some (clean_and_structure (Some (s "100"))))
     <> clean_and_structure (Some (s "100")).
Proof. split; [vm_compute; reflexivity|vm_compute; discriminate]. Qed.

(** ** Case of a text *)

Lemma upper_not_lower (c : ascii) :
  Unicode.isupper c = true -> Unicode.islower c = false.
Proof. destruct c as [[] [] [] [] [] [] [] []]; vm_compute; congruence. Qed.

Lemma isupper_from_spec (t : str) :
  forall seen,
    Py.isupper_from seen t = true
    <-> (seen = true \/ exists c, In c t /\ Unicode.isupper c = true)
        /\ forall c, In c t -> Unicode.islower c = false.
Proof.
  induction t as [|c r IH]; intros seen; cbn [Py.isupper_from].
  - split.
    + intros ->. split; [now left|intros c []].
    + intros [[H|[c [[] _]]] _]. exact H.
  - unfold Unicode.istitle. rewrite orb_false_r.
    destruct (Unicode.islower c) eqn:El.
    + split; [discriminate|]. intros [_ H].
      specialize (H c (or_introl eq_refl)). congruence.
    + rewrite IH. split.
      * intros [Hsome Hall]. split.
        -- destruct Hsome as [H|[d [Hin Hd]]].
           ++ apply orb_true_iff in H. destruct H as [H|H]; [now left|].
              right. exists c. split; [now left|exact H].
           ++ right. exists d. split; [now right|exact Hd].
        -- intros d [<-|Hin]; auto.
      * intros [Hsome Hall]. split.
        -- destruct Hsome as [H|[d [[<-|Hin] Hd]]].
           ++ left. now rewrite H.
           ++ left. rewrite Hd. apply orb_true_r.
           ++ right. now exists d.
        -- intros d Hin. apply Hall. now right.
Qed.

Lemma isupper_spec (t : str) : Py.isupper t = true <-> entirely_upper t.
Proof.
  unfold Py.isupper, entirely_upper. rewrite isupper_from_spec.
  split; intros [H Hall]; (split; [|exact Hall]).
  - destruct H as [H|H]; [discriminate|exact H].
  - now right.
Qed.

Lemma last_default (x y : ascii) (t : str) : t <> [] -> last t x = last t y.
Proof.
  induction t as [|c r IH]; [congruence|]. intros _.
  destruct r as [|d q]; [reflexivity|]. cbn [last] in *. apply IH. discriminate.
Qed.

Lemma last_cons (x c : ascii) (t : str) : last (c :: t) x = last t c.
Proof.
  destruct t as [|d q]; [reflexivity|].
  change (last (c :: d :: q) x) with (last (d :: q) x).
  apply last_default. discriminate.
Qed.

Lemma istitle_from_spec (t : str) :
  forall seen previous x,
    cased x = previous ->
    Py.istitle_from seen previous t = true
    <-> (seen = true \/ exists c, In c t /\ cased c = true)
        /\ forall front c back,
            t = front ++ c :: back ->
            (Unicode.isupper c = true -> cased (last front x) = false)
            /\ (Unicode.islower c = true -> cased (last front x) = true).
Proof.
  induction t as [|c r IH]; intros seen previous x Hx; cbn [Py.istitle_from].
  - split.
    + intros ->. split; [now left|]. intros front c back H. now destruct front.
    + intros [[H|[c [[] _]]] _]. exact H.
  - unfold Unicode.istitle. rewrite orb_false_r.
    assert (Hstep :
      (forall front d back, r = front ++ d :: back ->
            (Unicode.isupper d = true -> cased (last front c) = false)
            /\ (Unicode.islower d = true -> cased (last front c) = true))
      -> (Unicode.isupper c = true -> cased x = false)
      -> (Unicode.islower c = true -> cased x = true)
      -> forall front d back, c :: r = front ++ d :: back ->
            (Unicode.isupper d = true -> cased (last front x) = false)
            /\ (Unicode.islower d = true -> cased (last front x) = true)).
    { intros Hr Hu Hl front d back Heq.
      destruct front as [|f front].
      - injection Heq as <- _. now split.
      - injection Heq as <- ->. rewrite last_cons. now apply (Hr front d back). }
    assert (Hback :
      (forall front d back, c :: r = front ++ d :: back ->
          (Unicode.isupper d = true -> cased (last front x) = false)
          /\ (Unicode.islower d = true -> cased (last front x) = true))
      -> (forall front d back, r = front ++ d :: back ->
            (Unicode.isupper d = true -> cased (last front c) = false)
            /\ (Unicode.islower d = true -> cased (last front c) = true))
         /\ (Unicode.isupper c = true -> cased x = false)
         /\ (Unicode.islower c = true -> cased x = true)).
    { intros H. split.
      - intros front d back ->. rewrite <- (last_cons x c front).
        now apply (H (c :: front) d back).
      - now apply (H [] c r). }
    destruct (Unicode.isupper c) eqn:Eu.
    + assert (Ec : cased c = true) by (unfold cased; now rewrite Eu).
      pose proof (upper_not_lower c Eu) as El.
      destruct previous.
      * split; [discriminate|]. intros [_ H].
        destruct (Hback H) as [_ [Hu _]]. specialize (Hu eq_refl). congruence.
      * rewrite (IH true true c Ec). split.
        -- intros [_ H]. split; [right; exists c; split; [now left|exact Ec]|].
           apply (Hstep H); congruence.
        -- intros [_ H]. split; [now left|]. now apply Hback.
    + destruct (Unicode.islower c) eqn:El.
      * assert (Ec : cased c = true)
          by (unfold cased; rewrite El; apply orb_true_r).
        destruct previous.
        -- rewrite (IH true true c Ec). split.
           ++ intros [_ H]. split; [right; exists c; split; [now left|exact Ec]|].
              apply (Hstep H); congruence.
           ++ intros [_ H]. split; [now left|]. now apply Hback.
        -- split; [discriminate|]. intros [_ H].
           destruct (Hback H) as [_ [_ Hl]]. specialize (Hl eq_refl). congruence.
      * assert (Ec : cased c = false) by (unfold cased; now rewrite Eu, El).
        rewrite (IH seen false c Ec). split.
        -- intros [Hsome H]. split.
           ++ destruct Hsome as [Hs|[d [Hin Hd]]]; [now left|].
              right. exists d. split; [now right|exact Hd].
           ++ apply (Hstep H); congruence.
        -- intros [Hsome H]. split; [|now apply Hback].
           destruct Hsome as [Hs|[d [[<-|Hin] Hd]]];
             [now left|congruence|right; now exists d].
Qed.

Lemma istitle_spec (t : str) : Py.istitle t = true <-> title_case t.
Proof.
  unfold Py.istitle, title_case.
  rewrite (istitle_from_spec t false false " " eq_refl).
  split; intros [H Hall]; (split; [|exact Hall]).
  - destruct H as [H|H]; [discriminate|exact H].
  - now right.
Qed.

(** ** Words of a text *)

Lemma span_firstn (p : ascii -> bool) (t : str) :
  Forall (fun c => p c = true) (firstn (span p t) t).
Proof.
  induction t as [|c r IH]; cbn [span]; [constructor|].
  destruct (p c) eqn:E; cbn [firstn]; now constructor.
Qed.

Lemma span_stop (p : ascii -> bool) (d : ascii) (t : str) :
  p d = false -> p (hd d (skipn (span p t) t)) = false.
Proof.
  intros Hd. induction t as [|c r IH]; cbn [span]; [exact Hd|].
  destruct (p c) eqn:E; cbn [skipn hd]; assumption.
Qed.

Lemma span_exact (p : ascii -> bool) (d : ascii) (w back : str) :
  p d = false -> Forall (fun c => p c = true) w -> p (hd d back) = false ->
  span p (w ++ back) = length w.
Proof.
  intros Hd Hw Hback. induction Hw as [|c w Hc _ IH]; cbn [app span length].
  - destruct back as [|b back]; [reflexivity|]. cbn [hd span] in *.
    now rewrite Hback.
  - now rewrite Hc, IH.
Qed.

Lemma span_app_stop (p : ascii -> bool) (x : ascii) (front rest : str) :
  p x = false -> span p (front ++ x :: rest) <= length front.
Proof.
  intros Hx. induction front as [|c r IH]; cbn [app span length].
  - now rewrite Hx.
  - destruct (p c); lia.
Qed.

Lemma last_app_nonempty (d : ascii) (front t : str) :
  t <> [] -> last (front ++ t) d = last t d.
Proof.
  destruct t as [|c r _] using rev_ind; [congruence|]. intros _.
  now rewrite app_assoc, !last_last.
Qed.

Lemma split_ws_word (r : str) :
  forall c,
    Unicode.isspace c = false ->
    Py.split_ws (c :: r)
    = (c :: firstn (span nonspace r) r)
        :: Py.split_ws (skipn (span nonspace r) r).
Proof.
  induction r as [|d q IH]; intros c Hc.
  - cbn [Py.split_ws]. now rewrite Hc.
  - change (Py.split_ws (c :: d :: q))
      with (if Unicode.isspace c then Py.split_ws (d :: q)
            else if Unicode.isspace d then [c] :: Py.split_ws (d :: q)
                 else Py.cons_head c (Py.split_ws (d :: q))).
    rewrite Hc. cbn [span].
    replace (nonspace d) with (negb (Unicode.isspace d)) by reflexivity.
    destruct (Unicode.isspace d) eqn:Ed; cbn [negb firstn skipn].
    + reflexivity.
    + now rewrite (IH d Ed).
Qed.

Lemma word_of_nil (w : str) : ~ word_of [] w.
Proof.
  intros [front [back [H [Hw _]]]]. symmetry in H.
  apply app_eq_nil in H. destruct H as [_ H].
  apply app_eq_nil in H. tauto.
Qed.

Lemma word_of_space (c : ascii) (r w : str) :
  Unicode.isspace c = true -> word_of (c :: r) w <-> word_of r w.
Proof.
  intros Hc. split.
  - intros [front [back [H [Hw [Hall [Hfront Hback]]]]]].
    destruct front as [|f front].
    + destruct w as [|x w]; [congruence|]. injection H as <- _.
      inversion Hall; subst. congruence.
    + injection H as <- ->. exists front, back. repeat split; trivial.
      rewrite last_cons in Hfront.
      destruct front as [|g front]; [reflexivity|].
      now rewrite (last_default " " c) by discriminate.
  - intros [front [back [-> [Hw [Hall [Hfront Hback]]]]]].
    exists (c :: front), back. repeat split; trivial.
    rewrite last_cons. destruct front as [|g front]; [exact Hc|].
    now rewrite (last_default c " ") by discriminate.
Qed.

Lemma nonspace_true (c : ascii) :
  nonspace c = true <-> Unicode.isspace c = false.
Proof. unfold nonspace. apply negb_true_iff. Qed.

Lemma word_of_word (c : ascii) (r w : str) :
  Unicode.isspace c = false ->
  word_of (c :: r) w
  <-> w = c :: firstn (span nonspace r) r
      \/ word_of (skipn (span nonspace r) r) w.
Proof.
  intros Hc. split.
  - intros [front [back [H [Hw [Hall [Hfront Hback]]]]]].
    destruct front as [|f front].
    + left. destruct w as [|x w]; [congruence|]. injection H as <- ->.
      inversion Hall as [|? ? _ Hall']; subst. f_equal.
      rewrite (span_exact nonspace " " w back); trivial.
      * rewrite firstn_app, firstn_all, Nat.sub_diag. cbn [firstn].
        now rewrite app_nil_r.
      * apply Forall_impl with (2 := Hall'). intros a. apply nonspace_true.
      * unfold nonspace. now rewrite Hback.
    + right. injection H as <- ->. rewrite last_cons in Hfront.
      destruct front as [|x front _] using rev_ind; [cbn in Hfront; congruence|].
      rewrite last_last in Hfront. rewrite <- app_assoc.
      assert (Hk : span nonspace (front ++ [x] ++ w ++ back) <= length front).
      { apply span_app_stop. unfold nonspace. now rewrite Hfront. }
      exists (skipn (span nonspace (front ++ [x] ++ w ++ back)) front ++ [x]),
        back.
      split; [|split; [exact Hw|split; [exact Hall|split; [|exact Hback]]]].
      * rewrite skipn_app.
        replace (_ - length front) with 0 by lia.
        cbn [skipn]. now rewrite <- app_assoc.
      * now rewrite last_last.
  - intros [->|[front [back [H [Hw [Hall [Hfront Hback]]]]]]].
    + exists [], (skipn (span nonspace r) r). split; [|split; [|split; [|split]]].
      * cbn [app]. now rewrite firstn_skipn.
      * discriminate.
      * constructor; [exact Hc|].
        apply Forall_impl with (2 := span_firstn nonspace r).
        intros a. apply nonspace_true.
      * reflexivity.
      * pose proof (span_stop nonspace " " r eq_refl) as Hstop.
        unfold nonspace in Hstop. now apply negb_false_iff in Hstop.
    + exists (c :: firstn (span nonspace r) r ++ front), back.
      split; [|split; [exact Hw|split; [exact Hall|split; [|exact Hback]]]].
      * cbn [app]. rewrite <- app_assoc, <- H. now rewrite firstn_skipn.
      * destruct front as [|f front].
        -- exfalso. destruct w as [|x w]; [congruence|].
           pose proof (span_stop nonspace " " r eq_refl) as Hstop.
           rewrite H in Hstop. cbn [app hd] in Hstop.
           inversion Hall; subst. unfold nonspace in Hstop.
           apply negb_false_iff in Hstop. congruence.
        -- change (c :: firstn (span nonspace r) r ++ f :: front)
             with ((c :: firstn (span nonspace r) r) ++ f :: front).
           now rewrite last_app_nonempty by discriminate.
Qed.

Lemma split_ws_words_bounded (n : nat) :
  forall t, length t <= n -> forall w, In w (Py.split_ws t) <-> word_of t w.
Proof.
  induction n as [|n IH]; intros t Hlen w.
  - destruct t; [|simpl in Hlen; lia]. split; [intros []|].
    intros H. now apply word_of_nil in H.
  - destruct t as [|c r].
    + split; [intros []|]. intros H. now apply word_of_nil in H.
    + cbn [length] in Hlen. destruct (Unicode.isspace c) eqn:Ec.
      * rewrite word_of_space by assumption. rewrite <- IH by lia.
        cbn [Py.split_ws]. now rewrite Ec.
      * rewrite word_of_word, split_ws_word by assumption.
        cbn [In]. rewrite IH; [split; intros [H|H]; auto|].
        rewrite length_skipn. lia.
Qed.

Lemma split_ws_words (t w : str) : In w (Py.split_ws t) <-> word_of t w.
Proof. now apply (split_ws_words_bounded (length t)). Qed.

(** ** The heading detector *)

Lemma endswith1_single (t : str) (c : ascii) :
  Py.endswith1 t [c] = true <-> exists front, t = front ++ [c].
Proof.
  unfold Py.endswith1. destruct t as [|x r _] using rev_ind.
  - split; [discriminate|]. intros [front H]. now destruct front.
  - rewrite rev_app_distr. cbn [rev app Py.startswith1].
    replace (Py.startswith1 (rev r) []) with true by now destruct (rev r).
    rewrite andb_true_r. split.
    + intros H. apply Ascii.eqb_eq in H. subst x. now exists r.
    + intros [front H]. apply app_inj_tail in H. destruct H as [_ ->].
      apply Ascii.eqb_refl.
Qed.

Lemma endswith_ends_in (chars : list ascii) (t : str) :
  Py.endswith t (map (fun c => [c]) chars) = true <-> ends_in chars t.
Proof.
  unfold Py.endswith, ends_in. rewrite existsb_exists. split.
  - intros [suffix [Hin H]]. apply in_map_iff in Hin.
    destruct Hin as [c [<- Hin]]. apply endswith1_single in H.
    destruct H as [front ->]. now exists front, c.
  - intros [front [c [-> Hin]]]. exists [c]. split.
    + apply in_map_iff. now exists c.
    + apply endswith1_single. now exists front.
Qed.

(** C8: a line is a heading exactly when it has fewer than 100 characters,
    does not end in one of [.], [!], [?], [,], [;] and [:], and is entirely
    uppercase, or title case, or has a whitespace-delimited word that is
    entirely uppercase. *)
Theorem heading_detector_rule (line : str) :
  _is_heading line = true
  <-> length line < 100
      /\ ~ ends_in ["."; "!"; "?"; ","; ";"; ":"] line
      /\ (entirely_upper line
          \/ title_case line
          \/ exists w, word_of line w /\ entirely_upper w).
Proof.
  unfold _is_heading.
  change [s "."; s "!"; s "?"; s ","; s ";"; s ":"]
    with (map (fun c => [c]) ["."; "!"; "?"; ","; ";"; ":"]).
  rewrite !andb_true_iff, !orb_true_iff, negb_true_iff, Nat.ltb_lt.
  rewrite isupper_spec, istitle_spec, existsb_exists.
  rewrite <- not_true_iff_false, endswith_ends_in.
  split.
  - intros [[Hlen Hend] Hcase]. repeat split; trivial.
    destruct Hcase as [[H|H]|[w [Hin H]]]; auto.
    right; right. exists w. split; [now apply split_ws_words|].
    now apply isupper_spec.
  - intros [Hlen [Hend Hcase]]. repeat split; trivial.
    destruct Hcase as [H|[H|[w [Hin H]]]]; auto.
    right. exists w. split; [now apply split_ws_words|].
    now apply isupper_spec.
Qed.

(** ** No pattern of the program matches the empty string *)

Lemma rep_suffix (p : ascii -> bool) (t : str) :
  forall lo prev (k : Re.cont) rest,
    Re.rep p lo prev t k = Some rest ->
    exists prev' t',
      k prev' t' = Some rest /\ length t' <= length t
      /\ lo <= length t - length t'.
Proof.
  induction t as [|c r IH]; intros lo prev k rest; cbn [Re.rep].
  - destruct lo; [|discriminate]. intros H. exists prev, []. simpl. auto.
  - assert (Hstop : match lo with 0 => k prev (c :: r) | S _ => None end
                    = Some rest ->
                    exists prev' t',
                      k prev' t' = Some rest /\ length t' <= length (c :: r)
                      /\ lo <= length (c :: r) - length t').
    { destruct lo; [|discriminate]. intros H. exists prev, (c :: r).
      repeat split; auto; lia. }
    destruct (p c); [|exact Hstop].
    destruct (Re.rep p (pred lo) (Some c) r k) as [rest'|] eqn:E; [|exact Hstop].
    intros H. injection H as ->.
    destruct (IH _ _ _ _ E) as [prev' [t' [Hk [Hlen Hlo]]]].
    exists prev', t'. cbn [length]. repeat split; [exact Hk|lia|lia].
Qed.

Lemma run_suffix (r : Re.regex) :
  forall prev t (k : Re.cont) rest,
    Re.run r prev t k = Some rest ->
    exists prev' t', k prev' t' = Some rest /\ length t' <= length t.
Proof.
  induction r as [p|p lo|a IHa b IHb|a IHa b IHb| | |p];
    intros prev t k rest; cbn [Re.run].
  - destruct t as [|c t1]; [discriminate|]. destruct (p c); [|discriminate].
    intros H. exists (Some c), t1. simpl. auto.
  - intros H. destruct (rep_suffix p t lo prev k rest H) as [p' [t' [? [? _]]]].
    eauto.
  - intros H. destruct (IHa _ _ _ _ H) as [p1 [t1 [H1 Hlen1]]].
    destruct (IHb _ _ _ _ H1) as [p2 [t2 [H2 Hlen2]]].
    exists p2, t2. split; [exact H2|lia].
  - destruct (Re.run a prev t k) as [rest'|] eqn:E.
    + intros H. injection H as ->. eauto.
    + eauto.
  - destruct prev; [discriminate|]. eauto.
  - destruct t as [|c [|d t2]]; eauto; [|discriminate].
    destruct (Ascii.eqb c nl); [eauto|discriminate].
  - destruct prev as [c|]; [|discriminate]. destruct (p c); [eauto|discriminate].
Qed.

Lemma run_cat_cls (p : ascii -> bool) (b : Re.regex) (prev : option ascii)
      (t : str) (k : Re.cont) :
  Re.run (Re.Cat (Re.Cls p) b) prev t k
  = match t with
    | c :: r => if p c then Re.run b (Some c) r k else None
    | [] => None
    end.
Proof. reflexivity. Qed.

Lemma match_len_newline_run_positive (prev : option ascii) (t : str) :
  Re.match_len newline_run prev t <> Some 0.
Proof.
  unfold Re.match_len, newline_run. unfold Re.chr at 1. rewrite run_cat_cls.
  destruct t as [|c r]; [discriminate|].
  destruct (Ascii.eqb nl c); [|discriminate].
  match goal with |- context [Re.run ?b ?pr r Re.accept] =>
    destruct (Re.run b pr r Re.accept) as [rest|] eqn:E; [|discriminate]
  end.
  apply run_suffix in E. destruct E as [p1 [t1 [Hacc Hlen]]].
  injection Hacc as ->. intros H.
  assert (H0 : length (c :: r) - length rest = 0) by congruence.
  cbn [length] in H0. lia.
Qed.

(** Every pattern given to [re.sub] or [re.split] consumes at least one
    character where it matches, as [Re.sub_from] and [Re.split_from]
    assume. *)
Lemma patterns_consume :
  Forall (fun pattern =>
            forall prev t, Re.match_len pattern prev t <> Some 0)
         (Re.Rep (Ascii.eqb " ") 1 :: sentence_break :: map fst cleanup_patterns).
Proof.
  assert (Hrep : forall p lo prev t,
             Re.match_len (Re.Rep p (S lo)) prev t <> Some 0).
  { intros p lo prev t. rewrite match_len_rep.
    destruct (S lo <=? span p t) eqn:E; [|discriminate].
    apply Nat.leb_le in E. intros H. injection H as H. lia. }
  repeat constructor; try apply Hrep.
  - intros prev t. unfold Re.match_len, sentence_break. cbn [Re.run].
    destruct prev as [c|]; [|discriminate].
    destruct (Py.char_in c (s ".!?")); [|discriminate].
    apply (Hrep Unicode.isspace 0 (Some c) t).
  - apply match_len_newline_run_positive.
  - intros prev [|c r]; [discriminate|]. cbn [fst].
    rewrite match_len_cls. now destruct (problematic c).
Qed.

(** ** The sentences keep the text *)

Lemma match_len_sentence_break (prev : option ascii) (t : str) :
  Re.match_len sentence_break prev t
  = match prev with
    | Some c =>
        if Py.char_in c (s ".!?")
        then if 1 <=? span Unicode.isspace t
             then Some (span Unicode.isspace t) else None
        else None
    | None => None
    end.
Proof.
  destruct prev as [c|]; [|reflexivity].
  unfold Re.match_len, sentence_break. cbn [Re.run].
  destruct (Py.char_in c (s ".!?")); [|reflexivity].
  exact (match_len_rep Unicode.isspace 1 (Some c) t).
Qed.

Lemma filter_nonspace_spaces (t : str) :
  Forall (fun c => Unicode.isspace c = true) t -> filter nonspace t = [].
Proof.
  induction 1 as [|c r Hc _ IH]; [reflexivity|].
  cbn [filter]. unfold nonspace at 1. now rewrite Hc.
Qed.

Lemma filter_nonspace_strip (t : str) :
  filter nonspace (Py.strip t) = filter nonspace t.
Proof.
  destruct (strip_split t) as [front [back [H [Hfront Hback]]]].
  rewrite H at 2. rewrite !filter_app.
  rewrite (filter_nonspace_spaces front), (filter_nonspace_spaces back)
    by assumption.
  now rewrite app_nil_r.
Qed.

Lemma split_from_nonempty (r : Re.regex) (t : str) :
  forall skip prev, Re.split_from r skip prev t <> [].
Proof.
  induction t as [|c q IH]; intros skip prev; cbn [Re.split_from].
  - discriminate.
  - destruct skip; [|apply IH].
    destruct (Re.match_len r prev (c :: q)) as [[|n]|];
      try discriminate;
      specialize (IH 0 (Some c));
      destruct (Re.split_from r 0 (Some c) q); try congruence; discriminate.
Qed.

Lemma concat_cons_head (c : ascii) (pieces : list str) :
  pieces <> [] -> concat (Py.cons_head c pieces) = c :: concat pieces.
Proof. destruct pieces; [congruence|reflexivity]. Qed.

(** Splitting into sentences drops whitespace only. *)
Lemma split_keeps_text (t : str) :
  forall skip prev,
    skip <= span Unicode.isspace t ->
    filter nonspace (concat (Re.split_from sentence_break skip prev t))
    = filter nonspace t.
Proof.
  induction t as [|c r IH]; intros skip prev Hskip; [reflexivity|].
  cbn [Re.split_from]. cbn [span] in Hskip.
  assert (Hspace : Unicode.isspace c = true ->
                   filter nonspace (c :: r) = filter nonspace r).
  { intros Hc. cbn [filter]. unfold nonspace at 1. now rewrite Hc. }
  destruct skip as [|n].
  - rewrite match_len_sentence_break.
    assert (Hkeep : filter nonspace
                      (concat (Py.cons_head c
                         (Re.split_from sentence_break 0 (Some c) r)))
                    = filter nonspace (c :: r)).
    { rewrite concat_cons_head by apply split_from_nonempty.
      cbn [filter]. now rewrite IH by lia. }
    destruct prev as [x|]; [|exact Hkeep].
    destruct (Py.char_in x (s ".!?")); [|exact Hkeep].
    cbn [span]. destruct (Unicode.isspace c) eqn:Ec; [|exact Hkeep].
    cbn [Nat.leb concat app]. rewrite IH by lia. now rewrite Hspace.
  - destruct (Unicode.isspace c) eqn:Ec; [|lia].
    rewrite IH by lia. now rewrite Hspace.
Qed.

Lemma sentences_keep_text (text : str) :
  filter nonspace (concat (sentences_of text)) = filter nonspace text.
Proof.
  unfold sentences_of, Re.split; cbv zeta.
  rewrite <- (filter_nonspace_strip text).
  rewrite <- (split_keeps_text (Py.strip text) 0 None) by lia.
  induction (Re.split_from sentence_break 0 None (Py.strip text))
    as [|x pieces IH]; [reflexivity|].
  cbn [filter concat]. rewrite (filter_app nonspace x), <- IH.
  rewrite <- (filter_nonspace_strip x).
  destruct (Py.strip x) as [|c q] eqn:E; cbn [truthy map concat].
  - reflexivity.
  - now rewrite filter_app, E.
Qed.

(** ** The sentences of a text *)

Lemma terminal_not_space (c : ascii) :
  Py.char_in c (s ".!?") = true -> Unicode.isspace c = false.
Proof. intros H. apply (ends_sentence_not_space [c]). exact H. Qed.

Lemma space_not_terminal (c : ascii) :
  Unicode.isspace c = true -> Py.char_in c (s ".!?") = false.
Proof.
  intros H. destruct (Py.char_in c (s ".!?")) eqn:E; [|reflexivity].
  apply terminal_not_space in E. congruence.
Qed.

Lemma unbroken_tail (c : ascii) (t : str) : unbroken (c :: t) -> unbroken t.
Proof.
  intros H front x d back Heq. apply (H (c :: front) x d back).
  now rewrite Heq.
Qed.

Lemma unbroken_cons (p : ascii) (t : str) :
  unbroken t ->
  (Py.char_in p (s ".!?") = true -> Unicode.isspace (hd "a" t) = false) ->
  unbroken (p :: t).
Proof.
  intros Ht Hp [|f front] c d back Heq Hc.
  - injection Heq as -> ->. now apply Hp.
  - injection Heq as _ ->. now apply (Ht front c d back).
Qed.

Lemma unbroken_before (prev : option ascii) (c : ascii) (t : str) :
  unbroken (before prev (c :: t)) -> unbroken (before (Some c) t).
Proof. destruct prev; [apply unbroken_tail|trivial]. Qed.

Lemma last_seen_cons (prev : option ascii) (c : ascii) (t : str) :
  last_seen (Some c) t = last_seen prev (c :: t).
Proof.
  destruct t as [|d q]; [reflexivity|]. cbn [last_seen].
  now rewrite (last_cons c d q).
Qed.

Lemma blank_last (gap : str) :
  gap <> [] -> blank gap -> Unicode.isspace (last gap " ") = true.
Proof.
  intros Hne Hall. destruct gap as [|c r _] using rev_ind; [congruence|].
  rewrite last_last. apply Forall_app in Hall. destruct Hall as [_ Hc].
  now inversion Hc.
Qed.

(** Skipped characters are not looked at. *)
Lemma split_from_skip (r : Re.regex) (a : str) :
  forall prev t,
    Re.split_from r (length a) prev (a ++ t)
    = Re.split_from r 0 (last_seen prev a) t.
Proof.
  induction a as [|c a IH]; intros prev t; [reflexivity|].
  cbn [length app Re.split_from]. rewrite IH. now rewrite last_seen_cons with (prev := prev).
Qed.

(** Inside a sentence nothing is split off. *)
Lemma split_from_unbroken (x : str) :
  forall prev rest,
    unbroken (before prev x) ->
    Re.split_from sentence_break 0 prev (x ++ rest)
    = prepend x (Re.split_from sentence_break 0 (last_seen prev x) rest).
Proof.
  induction x as [|c q IH]; intros prev rest Hx.
  - cbn [app last_seen prepend].
    pose proof (split_from_nonempty sentence_break rest 0 prev) as Hne.
    now destruct (Re.split_from sentence_break 0 prev rest).
  - assert (Hcopy :
      Py.cons_head c (Re.split_from sentence_break 0 (Some c) (q ++ rest))
      = prepend (c :: q)
          (Re.split_from sentence_break 0 (last_seen prev (c :: q)) rest)).
    { rewrite IH by exact (unbroken_before prev c q Hx).
      rewrite (last_seen_cons prev).
      pose proof (split_from_nonempty sentence_break rest 0
                    (last_seen prev (c :: q))) as Hne.
      now destruct (Re.split_from sentence_break 0 _ rest). }
    cbn [app Re.split_from]. rewrite match_len_sentence_break.
    destruct prev as [p|]; [|exact Hcopy].
    destruct (Py.char_in p (s ".!?")) eqn:Ep; [|exact Hcopy].
    cbn [span]. rewrite (Hx [] p c q eq_refl Ep). exact Hcopy.
Qed.

(** At a sentence break the whole run of whitespace is left out. *)
Lemma split_from_break (p : ascii) (gap tail : str) :
  Py.char_in p (s ".!?") = true ->
  gap <> [] -> blank gap -> Unicode.isspace (hd "a" tail) = false ->
  Re.split_from sentence_break 0 (Some p) (gap ++ tail)
  = [] :: Re.split_from sentence_break 0 (Some (last gap " ")) tail.
Proof.
  intros Hp Hne Hgap Htail. destruct gap as [|g gap]; [congruence|].
  cbn [app Re.split_from]. rewrite match_len_sentence_break, Hp.
  change (g :: gap ++ tail) with ((g :: gap) ++ tail).
  rewrite (span_exact Unicode.isspace "a" (g :: gap) tail)
    by (trivial; reflexivity).
  cbn [length Nat.leb]. rewrite split_from_skip.
  now rewrite (last_seen_cons None), (last_cons " " g gap).
Qed.

Lemma laid_out_hd (d : ascii) (x : str) (rest : list str) (body : str) :
  x <> [] -> laid_out (x :: rest) body -> hd d body = hd d x.
Proof.
  intros Hx H. cbn [laid_out] in H. destruct rest as [|y ys].
  - now subst.
  - destruct H as [gap [tail [-> _]]]. destruct x; [congruence|reflexivity].
Qed.

Lemma laid_out_last (d : ascii) (sentences : list str) :
  forall body,
    Forall solid sentences -> sentences <> [] -> laid_out sentences body ->
    body <> [] /\ last body d = last (last sentences []) d.
Proof.
  induction sentences as [|x rest IH]; intros body Hall Hne H; [congruence|].
  inversion Hall as [|? ? Hx Hrest]; subst. cbn [laid_out] in H.
  destruct rest as [|y ys].
  - subst. split; [apply Hx|reflexivity].
  - destruct H as [gap [tail [-> [_ [_ [_ Htail]]]]]].
    destruct (IH tail Hrest ltac:(discriminate) Htail) as [Hne' Hlast].
    split.
    + destruct x; [now destruct Hx|discriminate].
    + rewrite app_assoc, last_app_nonempty by exact Hne'.
      rewrite Hlast. reflexivity.
Qed.

Lemma laid_out_solid (sentences : list str) (body : str) :
  Forall solid sentences -> sentences <> [] -> laid_out sentences body ->
  solid body.
Proof.
  intros Hall Hne H.
  destruct (laid_out_last " " sentences body Hall Hne H) as [Hbody Hlast].
  split; [exact Hbody|]. destruct sentences as [|x rest]; [congruence|].
  inversion Hall as [|? ? Hx Hrest]; subst. split.
  - rewrite (laid_out_hd " " x rest body) by (trivial; apply Hx). apply Hx.
  - rewrite Hlast.
    assert (Hin : In (last (x :: rest) []) (x :: rest)).
    { destruct (exists_last (l := x :: rest) ltac:(discriminate))
        as [front [y Heq]].
      rewrite Heq, last_last. apply in_or_app. right. now left. }
    rewrite Forall_forall in Hall. apply (Hall _ Hin).
Qed.

(** The split of a text laid out in sentences returns these sentences. *)
Lemma split_laid_out (sentences : list str) :
  forall body prev,
    sentences <> [] ->
    Forall (fun x => solid x /\ unbroken x) sentences ->
    laid_out sentences body ->
    (forall p, prev = Some p -> Py.char_in p (s ".!?") = false) ->
    Re.split_from sentence_break 0 prev body = sentences.
Proof.
  induction sentences as [|x rest IH]; intros body prev Hne Hall Hbody Hprev;
    [congruence|].
  inversion Hall as [|? ? [Hx Hux] Hrest]; subst.
  assert (Hbefore : unbroken (before prev x)).
  { destruct prev as [p|]; [|exact Hux]. apply unbroken_cons; [exact Hux|].
    rewrite (Hprev p eq_refl). discriminate. }
  cbn [laid_out] in Hbody. destruct rest as [|y ys].
  - subst body. rewrite <- (app_nil_r x) at 1.
    rewrite split_from_unbroken by exact Hbefore.
    cbn [Re.split_from prepend]. now rewrite app_nil_r.
  - destruct Hbody as [gap [tail [-> [Hend [Hgap [Hblank Htail]]]]]].
    rewrite split_from_unbroken by exact Hbefore.
    inversion Hrest as [|? ? [Hy Huy] _]; subst.
    destruct x as [|c q]; [now destruct Hx|]. cbn [last_seen].
    rewrite split_from_break; trivial.
    + cbn [prepend]. rewrite app_nil_r. apply (f_equal (cons (c :: q))).
      apply IH; trivial; [discriminate|].
      intros p Hp. injection Hp as <-.
      apply space_not_terminal. now apply blank_last.
    + unfold ends_sentence in Hend. now rewrite last_cons in Hend.
    + rewrite (laid_out_hd "a" y ys tail); [|apply Hy|exact Htail].
      destruct Hy as [Hy0 [Hy1 _]]. destruct y; [congruence|exact Hy1].
Qed.

Lemma solid_pieces_kept (pieces : list str) :
  Forall solid pieces ->
  map Py.strip (filter (fun x => truthy (Py.strip x)) pieces) = pieces.
Proof.
  induction 1 as [|p ps Hp _ IH]; [reflexivity|].
  cbn [filter]. rewrite (solid_strip p Hp).
  replace (truthy p) with true by (symmetry; apply truthy_true, Hp).
  cbn [map]. now rewrite (solid_strip p Hp), IH.
Qed.

Lemma strip_blank (t : str) : blank t -> Py.strip t = [].
Proof.
  intros H. unfold Py.strip. rewrite <- (app_nil_r t).
  now rewrite lstrip_spaces.
Qed.

Lemma strip_between (lead body trail : str) :
  blank lead -> blank trail -> solid body ->
  Py.strip (lead ++ body ++ trail) = body.
Proof.
  intros Hlead Htrail [Hne [Hhd Hlast]]. unfold Py.strip.
  rewrite lstrip_spaces by exact Hlead.
  rewrite lstrip_keeps
    by (right; destruct body; [congruence|exact Hhd]).
  unfold Py.rstrip. rewrite rev_app_distr.
  rewrite lstrip_spaces by now apply Forall_rev.
  apply (rstrip_keeps body). now right.
Qed.

(** The sentences that [split_into_chunks] works on are sentences of the
    text in the sense of [sentences_in]. *)
Lemma split_layout_holds (n : nat) :
  forall t prev,
    length t <= n ->
    split_layout prev (Re.split_from sentence_break 0 prev t) t.
Proof.
  induction n as [|n IH]; intros t prev Hlen.
  - destruct t; [|cbn [length] in Hlen; lia].
    cbn [Re.split_from split_layout]. split; [|reflexivity].
    intros front c d back Heq. destruct prev; destruct front as [|? [|? ?]];
      discriminate.
  - destruct t as [|c r].
    { cbn [Re.split_from split_layout]. split; [|reflexivity].
      intros front c d back Heq. destruct prev; destruct front as [|? [|? ?]];
        discriminate. }
    cbn [length] in Hlen.
    assert (Hcopy :
      (forall p, prev = Some p -> Py.char_in p (s ".!?") = true ->
                 Unicode.isspace c = false) ->
      split_layout prev
        (Py.cons_head c (Re.split_from sentence_break 0 (Some c) r))
        (c :: r)).
    { intros Hc. specialize (IH r (Some c) ltac:(lia)).
      destruct (Re.split_from sentence_break 0 (Some c) r) as [|x rest];
        [contradiction|].
      cbn [Py.cons_head]. cbn [split_layout] in IH |- *.
      destruct IH as [Hx Hrest]. split.
      - destruct prev as [p|]; [|exact Hx]. cbn [before] in *.
        apply unbroken_cons; [exact Hx|]. cbn [hd]. now apply Hc.
      - destruct rest as [|y ys]; [now subst|].
        destruct Hrest as [gap [tail [p [-> [Hp Hrest]]]]].
        exists gap, tail, p. split; [reflexivity|].
        split; [|exact Hrest]. now rewrite <- (last_seen_cons prev). }
    cbn [Re.split_from]. rewrite match_len_sentence_break.
    destruct prev as [p|]; [|apply Hcopy; discriminate].
    destruct (Py.char_in p (s ".!?")) eqn:Ep;
      [|apply Hcopy; intros ? [= <-]; congruence].
    destruct (Unicode.isspace c) eqn:Ec;
      [|cbn [span]; rewrite Ec; apply Hcopy; trivial].
    set (k := span Unicode.isspace (c :: r)).
    assert (Hk : k = S (span Unicode.isspace r))
      by (unfold k; cbn [span]; now rewrite Ec).
    rewrite Hk. cbn [Nat.leb].
    pose proof (span_firstn Unicode.isspace r) as Hgap.
    pose proof (span_stop Unicode.isspace "a" r eq_refl) as Hstop.
    pose proof (span_le_length Unicode.isspace r) as Hle.
    set (gap := firstn (span Unicode.isspace r) r) in *.
    set (tail := skipn (span Unicode.isspace r) r) in *.
    assert (Hr : r = gap ++ tail) by (symmetry; apply firstn_skipn).
    assert (Hn : span Unicode.isspace r = length gap)
      by (unfold gap; rewrite length_firstn; lia).
    rewrite Hn. rewrite Hr at 1. rewrite split_from_skip.
    assert (Htail : length tail <= n)
      by (unfold tail; rewrite length_skipn; lia).
    specialize (IH tail (last_seen (Some c) gap) Htail).
    destruct (Re.split_from sentence_break 0 (last_seen (Some c) gap) tail)
      as [|y ys] eqn:Es; [contradiction|].
    cbn [split_layout]. split.
    + intros [|? [|? ?]] ? ? ? Heq; discriminate.
    + exists (c :: gap), tail, p. cbn [app last_seen].
      split; [now rewrite Hr|]. split; [reflexivity|].
      split; [exact Ep|]. split; [discriminate|].
      split; [now constructor|]. split; [exact Hstop|].
      rewrite (last_cons " " c gap).
      rewrite (last_seen_cons None) in IH. exact IH.
Qed.

Lemma split_layout_solid (pieces : list str) :
  forall t prev,
    solid t ->
    (forall p, prev = Some p -> Py.char_in p (s ".!?") = false) ->
    split_layout prev pieces t ->
    laid_out pieces t /\ Forall (fun x => solid x /\ unbroken x) pieces.
Proof.
  induction pieces as [|x rest IH]; intros t prev Ht Hprev H; [contradiction|].
  cbn [split_layout] in H. destruct H as [Hx Hrest].
  assert (Hux : unbroken x)
    by (destruct prev; [now apply unbroken_tail in Hx|exact Hx]).
  destruct rest as [|y ys].
  - subst t. split; [reflexivity|]. constructor; [now split|constructor].
  - destruct Hrest as [gap [tail [p [-> [Hp [Hterm [Hgap [Hblank [Hhd Htail]]]]]]]]].
    destruct Ht as [_ [Hh Hl]].
    destruct x as [|c q].
    { exfalso. cbn [last_seen] in Hp. rewrite (Hprev p Hp) in Hterm.
      discriminate. }
    cbn [last_seen] in Hp. injection Hp as Hp.
    assert (Hsx : solid (c :: q)).
    { split; [discriminate|]. split; [exact Hh|].
      rewrite (last_cons " " c q), Hp. now apply terminal_not_space. }
    assert (Htne : tail <> []).
    { intros ->. rewrite app_nil_r in Hl.
      rewrite last_app_nonempty in Hl by exact Hgap.
      rewrite (blank_last gap Hgap Hblank) in Hl. discriminate. }
    assert (Hst : solid tail).
    { split; [exact Htne|]. split.
      - destruct tail; [congruence|exact Hhd].
      - rewrite app_assoc, last_app_nonempty in Hl by exact Htne. exact Hl. }
    destruct (IH tail (Some (last gap " ")) Hst) as [Hlay Hall]; trivial.
    { intros z [= <-]. apply space_not_terminal. now apply blank_last. }
    split.
    + cbn [laid_out]. exists gap, tail. split; [reflexivity|].
      split; [|now repeat split].
      unfold ends_sentence. now rewrite (last_cons " " c q), Hp.
    + constructor; [now split|exact Hall].
Qed.

(** The sentence list of the chunker is the one list of sentences that the
    text is made of. *)
Lemma sentences_of_spec (text : str) (sentences : list str) :
  sentences_in text sentences <-> sentences = sentences_of text.
Proof.
  unfold sentences_of, Re.split; cbv zeta. split.
  - intros [Hall [lead [body [trail [-> [Hlead [Htrail Hbody]]]]]]].
    assert (Hsolid : Forall solid sentences)
      by (apply Forall_impl with (2 := Hall); tauto).
    destruct sentences as [|x rest].
    + cbn [laid_out] in Hbody. subst body. cbn [app].
      rewrite strip_blank by now apply Forall_app.
      reflexivity.
    + rewrite strip_between; trivial;
        [|now apply (laid_out_solid (x :: rest))].
      rewrite (split_laid_out (x :: rest) body None); trivial;
        try discriminate.
      symmetry. now apply solid_pieces_kept.
  - intros ->. destruct (strip_split text) as [lead [trail [Heq [Hlead Htrail]]]].
    destruct (Py.strip text) as [|c r] eqn:E.
    + split; [constructor|]. exists lead, [], trail. now repeat split.
    + assert (Hsolid : solid (c :: r))
        by (rewrite <- E; apply strip_solid; rewrite E; discriminate).
      destruct (split_layout_solid
                  (Re.split_from sentence_break 0 None (c :: r))
                  (c :: r) None Hsolid ltac:(discriminate)
                  (split_layout_holds _ _ None (Nat.le_refl _)))
        as [Hlay Hall].
      assert (Hs : Forall solid (Re.split_from sentence_break 0 None (c :: r)))
        by (apply Forall_impl with (2 := Hall); tauto).
      rewrite (solid_pieces_kept _ Hs). split; [exact Hall|].
      exists lead, (c :: r), trail. now repeat split.
Qed.

Lemma closed_app (a b : str) : b <> [] -> closed (a ++ b) = a ++ closed b.
Proof.
  intros Hb. unfold closed, ends_sentence.
  rewrite last_app_nonempty by exact Hb.
  destruct (Py.char_in _ _); [reflexivity|now rewrite app_assoc].
Qed.

Lemma join_nonempty (sep x : str) (rest : list str) :
  x <> [] -> Py.join sep (x :: rest) <> [].
Proof.
  intros Hx. destruct x; [congruence|]. destruct rest; discriminate.
Qed.

(** Only the last sentence of a text can lack its terminal punctuation. *)
Lemma terminated_join (sentences : list str) :
  forall body,
    Forall solid sentences -> laid_out sentences body ->
    Py.join (s " ") (map terminated sentences)
    = match sentences with
      | [] => []
      | _ :: _ => closed (Py.join (s " ") sentences)
      end.
Proof.
  induction sentences as [|x rest IH]; intros body Hall H; [reflexivity|].
  inversion Hall as [|? ? Hx Hrest]; subst. cbn [laid_out] in H.
  destruct rest as [|y ys].
  - cbn [map Py.join]. apply terminated_closed.
  - destruct H as [gap [tail [_ [Hend [_ [_ Htail]]]]]].
    specialize (IH tail Hrest Htail).
    cbn [map] in IH |- *.
    rewrite (join_cons (s " ") (terminated x)) by discriminate.
    rewrite (join_cons (s " ") x (y :: ys)) by discriminate.
    rewrite IH, (closed_app x) by discriminate.
    rewrite (closed_app (s " ")).
    + f_equal. rewrite terminated_closed. unfold closed. now rewrite Hend.
    + apply join_nonempty. inversion Hrest as [|? ? Hy _]; subst. apply Hy.
Qed.

(** C3: the chunks are the groups of a partition of the sentences of the
    text into consecutive groups of whole sentences, and every group has
    length at most [max_chunk_size] unless it is one single sentence whose
    emitted form alone is longer than [max_chunk_size].  The sentences are
    those of the text itself: the one list that the text is made of, in
    order, between runs of whitespace that follow a [.], [!] or [?]. *)
Theorem chunk_size_invariant (text : str) (max_chunk_size : Z) :
  (forall sentences,
      sentences_in text sentences <-> sentences = sentences_of text)
  /\ exists groups,
      concat groups = sentences_of text
      /\ split_into_chunks (Some text) max_chunk_size
         = inl (map chunk_of groups)
      /\ Forall (fun g => g <> [] /\ within_bound max_chunk_size g) groups.
Proof.
  split; [intros sentences; apply sentences_of_spec|].
  destruct (chunks_grouping max_chunk_size (sentences_of text)
              (sentences_solid text)) as [groups [Hcat [Hrun Hok]]].
  exists groups. simpl. rewrite Hrun. now repeat split.
Qed.

(** C4: joining the chunks with single spaces gives the sentences of the
    text, every one once and in the original order, joined with single
    spaces and each with its terminal punctuation ensured.  The sentences
    are the text itself without the whitespace before the first, after the
    last and between two of them, so that the joined chunks are the text
    with each of these runs of whitespace replaced by one space or
    removed, and a full stop added at the end when the text does not end
    in [.], [!] or [?]: no other sentence can lack its punctuation. *)
Theorem chunks_concatenate_to_sentences (text : str) (max_chunk_size : Z) :
  exists chunks,
    split_into_chunks (Some text) max_chunk_size = inl chunks
    /\ (forall sentences,
          sentences_in text sentences <-> sentences = sentences_of text)
    /\ Py.join (s " ") chunks
       = Py.join (s " ") (map terminated (sentences_of text))
    /\ Py.join (s " ") chunks
       = match sentences_of text with
         | [] => []
         | _ :: _ => closed (Py.join (s " ") (sentences_of text))
         end
    /\ filter nonspace (concat (sentences_of text)) = filter nonspace text.
Proof.
  destruct (chunks_grouping max_chunk_size (sentences_of text)
              (sentences_solid text)) as [groups [Hcat [Hrun Hok]]].
  exists (map chunk_of groups). split; [simpl; now rewrite Hrun|].
  split; [intros sentences; apply sentences_of_spec|].
  assert (Hjoin : Py.join (s " ") (map chunk_of groups)
                  = Py.join (s " ") (map terminated (sentences_of text))).
  { rewrite <- Hcat, concat_map, <- join_concat.
    - now rewrite map_map.
    - apply Forall_map. apply Forall_impl with (2 := Hok).
      intros g [Hg _]. destruct g; [congruence|discriminate]. }
  split; [exact Hjoin|]. split; [|apply sentences_keep_text].
  rewrite Hjoin.
  destruct (proj2 (sentences_of_spec text (sentences_of text)) eq_refl)
    as [Hall [lead [body [trail [_ [_ [_ Hbody]]]]]]].
  apply (terminated_join _ body); [|exact Hbody].
  apply Forall_impl with (2 := Hall). tauto.
Qed.

(** ** The program on the inputs named by the specification *)

Example chunk_boundary_example :
  split_into_chunks (Some (s "Hi there. Go now. Run fast.")) 10
  = inl [s "Hi there."; s "Go now."; s "Run fast."]
  /\ split_into_chunks (Some (s "Hi there. Go now. Run fast.")) 18
     = inl [s "Hi there. Go now."; s "Run fast."]
  /\ split_into_chunks (Some (s "Hi. A sentence far too long. Go")) 10
     = inl [s "Hi."; s "A sentence far too long."; s "Go."].
Proof. repeat split; vm_compute; reflexivity. Qed.

Example clean_and_structure_example :
  clean_and_structure
    (Some (s "POWER PLATFORM OVERVIEW" ++ [nl] ++ s "This has   no period"))
  = s "POWER PLATFORM OVERVIEW This has no period."
  /\ clean_and_structure (Some (s "Was this page helpful? Yes No")) = []
  /\ clean_and_structure (Some (s "we sign # in")) = s "we sign in."
  /\ clean_and_structure (Some (s "we sign in.")) = [].
Proof. repeat split; vm_compute; reflexivity. Qed.

Example normalize_spacing_example :
  _normalize_spacing
    (s "a   b " ++ [nl; nl; " "; nl; nl] ++ s " c" ++ [nl] ++ s " d ")
  = s "a b" ++ [nl; nl] ++ s "c" ++ [nl] ++ s "d".
Proof. vm_compute. reflexivity. Qed.

Example sentences_example :
  sentences_of (s "  Hi there.  Go now") = [s "Hi there."; s "Go now"]
  /\ sentences_of (s "Wait... what?! Yes.No") = [s "Wait..."; s "what?!"; s "Yes.No"]
  /\ split_into_chunks (Some (s "  Hi there.  Go now")) 4000
     = inl [s "Hi there. Go now."].
Proof. repeat split; vm_compute; reflexivity. Qed.

(** * Further properties of the program *)

(** ** Splitting and joining lines *)

Lemma split_on_nonempty (sep : ascii) (t : str) : Py.split_on sep t <> [].
Proof.
  induction t as [|c r IH]; cbn [Py.split_on]; [discriminate|].
  destruct (Ascii.eqb c sep); [discriminate|].
  destruct (Py.split_on sep r); discriminate.
Qed.

Lemma split_on_free (sep : ascii) (t : str) :
  Forall (Forall (fun c => c <> sep)) (Py.split_on sep t).
Proof.
  induction t as [|c r IH]; cbn [Py.split_on]; [now repeat constructor|].
  destruct (Ascii.eqb c sep) eqn:E; [now constructor|].
  apply Ascii.eqb_neq in E.
  destruct (Py.split_on sep r) as [|p ps]; [now repeat constructor|].
  inversion IH; subst. cbn [Py.cons_head]. constructor; [now constructor|assumption].
Qed.

Lemma split_on_app_sep (sep : ascii) (a b : str) :
  Forall (fun c => c <> sep) a ->
  Py.split_on sep (a ++ sep :: b) = a :: Py.split_on sep b.
Proof.
  induction 1 as [|c r Hc _ IH]; cbn [Py.split_on app].
  - now rewrite Ascii.eqb_refl.
  - apply Ascii.eqb_neq in Hc. now rewrite Hc, IH.
Qed.

Lemma split_on_join (sep : ascii) (pieces : list str) :
  pieces <> [] ->
  Forall (Forall (fun c => c <> sep)) pieces ->
  Py.split_on sep (Py.join [sep] pieces) = pieces.
Proof.
  intros Hne Hall. revert Hne.
  induction Hall as [|p ps Hp Hps IH]; intros Hne; [now elim Hne|].
  destruct ps as [|q ps].
  - cbn [Py.join]. now apply split_on_none.
  - change (Py.join [sep] (p :: q :: ps))
      with (p ++ sep :: Py.join [sep] (q :: ps)).
    rewrite split_on_app_sep by assumption. f_equal. apply IH. discriminate.
Qed.

Lemma strip_free (sep : ascii) (t : str) :
  Forall (fun c => c <> sep) t -> Forall (fun c => c <> sep) (Py.strip t).
Proof. apply strip_forall. Qed.

(** ** What [clean_and_structure] returns *)

(** X1: the string returned by [clean_and_structure] is empty, or it starts
    and ends with a character that is not whitespace, ends in [.], [!] or
    [?], has no two spaces in a row, no whitespace other than the space, no
    character outside the allowlist and no doubled [.], [?] or [!]. *)
Theorem clean_output_shape (raw_text : option str) :
  clean_and_structure raw_text = []
  \/ (solid (clean_and_structure raw_text)
      /\ ends_sentence (clean_and_structure raw_text) = true
      /\ ~ has_pair " " " " (clean_and_structure raw_text)
      /\ tidy (clean_and_structure raw_text)).
Proof.
  destruct raw_text as [[|a raw]|]; [now left| |now left].
  rewrite clean_and_structure_spec by discriminate.
  destruct (is_noise _) eqn:Enoise; [now left|right].
  destruct (result_shape (Py.strip (_basic_cleanup (a :: raw))))
    as [Htidy [Hsolid [Hends Hspace]]]; auto.
  - apply strip_tidy, basic_cleanup_tidy.
  - apply strip_solid. now apply is_noise_short.
Qed.

(** ** Lines of the intermediate passes *)

Lemma emitted_lines (line : str) :
  Forall (fun c => c <> nl) line ->
  Forall (fun l => Forall (fun c => c <> nl) l
                   /\ (l = [] \/ ends_sentence l = true))
         (emitted line).
Proof.
  intros Hline. unfold emitted. destruct (_is_heading line).
  - constructor; [|constructor; [|constructor]].
    + split.
      * apply Forall_app. split; [exact Hline|]. repeat constructor. discriminate.
      * right. exact (ends_sentence_snoc line ".").
    + split; [constructor|now left].
  - constructor; [|constructor]. split.
    + unfold closed. destruct (ends_sentence line); [exact Hline|].
      apply Forall_app. split; [exact Hline|]. repeat constructor. discriminate.
    + right. apply closed_ends.
Qed.

(** X2: every line of the structured text is empty or ends in [.], [!] or
    [?]. *)
Theorem structured_lines_are_terminated (text : str) :
  Forall (fun l => l = [] \/ ends_sentence l = true)
         (Py.split_on nl (_structure_for_audio text)).
Proof.
  unfold _structure_for_audio; cbv zeta. rewrite structured_lines_of_spec.
  assert (Hall : Forall (fun l => Forall (fun c => c <> nl) l
                                  /\ (l = [] \/ ends_sentence l = true))
                        (flat_map emitted
                           (filter truthy
                              (map Py.strip (Py.split_on nl text))))).
  { apply Forall_flat_map. apply Forall_forall. intros l Hin.
    apply filter_In in Hin. destruct Hin as [Hin _].
    apply in_map_iff in Hin. destruct Hin as [x [<- Hx]].
    apply emitted_lines, strip_free.
    pose proof (split_on_free nl text) as Hfree.
    rewrite Forall_forall in Hfree. now apply Hfree. }
  destruct (flat_map emitted _) as [|l ls] eqn:E.
  - cbn. constructor; [now left|constructor].
  - rewrite split_on_join; [|discriminate|].
    + apply Forall_impl with (2 := Hall). tauto.
    + apply Forall_impl with (2 := Hall). tauto.
Qed.

(** X3: filtering a filtered text changes nothing. *)
Theorem filter_is_idempotent (text : str) :
  _filter_unwanted_content (_filter_unwanted_content text)
  = _filter_unwanted_content text.
Proof.
  unfold _filter_unwanted_content; cbv zeta. rewrite !filtered_lines_of_spec.
  set (kept := filter _ (map Py.strip (Py.split_on nl text))).
  assert (Hkept : Forall (fun l => Forall (fun c => c <> nl) l
                                   /\ Py.strip l = l
                                   /\ is_noise l = false) kept).
  { apply Forall_forall. intros l Hin. apply filter_In in Hin.
    destruct Hin as [Hin Hok]. apply in_map_iff in Hin.
    destruct Hin as [x [<- Hx]]. split; [|split].
    - apply strip_free. pose proof (split_on_free nl text) as Hfree.
      rewrite Forall_forall in Hfree. now apply Hfree.
    - apply strip_strip.
    - now apply negb_true_iff. }
  clearbody kept. destruct kept as [|l ls]; [reflexivity|].
  rewrite split_on_join;
    [|discriminate|apply Forall_impl with (2 := Hkept); tauto].
  f_equal. induction Hkept as [|x xs [_ [Hstrip Hok]] _ IH]; [reflexivity|].
  cbn [map filter]. rewrite Hstrip, Hok. cbn [negb]. now rewrite IH.
Qed.

(** ** Adjacent characters through a substitution *)

Lemma has_pair_app_cases (a b : ascii) (x y : str) :
  has_pair a b (x ++ y) ->
  has_pair a b x \/ has_pair a b y \/ (In a x /\ In b y).
Proof.
  induction x as [|c x IH]; cbn [app]; intros H; [auto|].
  apply has_pair_cons in H. destruct H as [[-> [r Hr]]|H].
  - destruct x as [|d x].
    + right; right. cbn [app] in Hr. subst y. split; now left.
    + left. injection Hr as -> _. apply has_pair_cons. left.
      split; [reflexivity|now exists x].
  - destruct (IH H) as [Hx|[Hy|[Hin Hy]]].
    + left. apply has_pair_cons. now right.
    + now right; left.
    + right; right. split; [now right|exact Hy].
Qed.

Lemma sub_from_head (r : Re.regex) (repl : str) :
  repl <> [] ->
  forall t prev h out,
    Re.sub_from r repl 0 prev t = h :: out ->
    In h repl \/ exists rest, t = h :: rest.
Proof.
  intros Hne t prev h out. destruct t as [|c rest]; cbn [Re.sub_from];
    [discriminate|].
  destruct (Re.match_len r prev (c :: rest)) as [[|n]|].
  - intros H. injection H as <- _. right. now exists rest.
  - destruct repl as [|x repl]; [now elim Hne|]. cbn [app].
    intros H. injection H as <- _. left. now left.
  - intros H. injection H as <- _. right. now exists rest.
Qed.

(** A substitution by a non-empty replacement brings no two characters of
    the text together. *)
Lemma sub_from_pairs (r : Re.regex) (repl : str) (a b : ascii) :
  repl <> [] ->
  forall t skip prev,
    has_pair a b (Re.sub_from r repl skip prev t) ->
    has_pair a b t \/ In a repl \/ In b repl.
Proof.
  intros Hne. induction t as [|c rest IH]; intros skip prev H;
    cbn [Re.sub_from] in H.
  - now apply has_pair_nil in H.
  - assert (Hrest : forall n p,
               has_pair a b (Re.sub_from r repl n p rest) ->
               has_pair a b (c :: rest) \/ In a repl \/ In b repl).
    { intros n p Hp. destruct (IH n p Hp) as [Hr|Hr]; [left|now right].
      apply has_pair_cons. now right. }
    assert (Hcopy : has_pair a b (c :: Re.sub_from r repl 0 (Some c) rest) ->
                    has_pair a b (c :: rest) \/ In a repl \/ In b repl).
    { intros Hc. apply has_pair_cons in Hc. destruct Hc as [[-> [out Hout]]|Hc].
      - destruct (sub_from_head r repl Hne _ _ _ _ Hout) as [Hin|[rest' ->]].
        + now right; right.
        + left. apply has_pair_cons. left. split; [reflexivity|now exists rest'].
      - now apply (Hrest 0 (Some c)). }
    destruct skip as [|n]; [|now apply (Hrest n (Some c))].
    destruct (Re.match_len r prev (c :: rest)) as [[|n]|]; try now apply Hcopy.
    apply has_pair_app_cases in H. destruct H as [H|[H|[H _]]].
    + right; left. now apply has_pair_in in H.
    + now apply (Hrest n (Some c)).
    + now right; left.
Qed.

Lemma split_on_head (sep b : ascii) (t q : str) (qs : list str) :
  Py.split_on sep t = (b :: q) :: qs -> exists rest, t = b :: rest.
Proof.
  destruct t as [|c rest]; cbn [Py.split_on]; [discriminate|].
  destruct (Ascii.eqb c sep); [discriminate|].
  destruct (Py.split_on sep rest); cbn [Py.cons_head];
    intros H; injection H as -> _; now exists rest.
Qed.

Lemma split_on_pairs (sep a b : ascii) (t : str) :
  forall p, In p (Py.split_on sep t) -> has_pair a b p -> has_pair a b t.
Proof.
  induction t as [|c rest IH]; intros p; cbn [Py.split_on].
  - intros [<-|[]] H. now apply has_pair_nil in H.
  - destruct (Ascii.eqb c sep).
    + intros [<-|Hin] H; [now apply has_pair_nil in H|].
      apply has_pair_cons. right. now apply (IH p).
    + destruct (Py.split_on sep rest) as [|q qs] eqn:E.
      * now elim (split_on_nonempty sep rest).
      * cbn [Py.cons_head]. intros [<-|Hin] H.
        -- apply has_pair_cons in H. apply has_pair_cons.
           destruct H as [[-> [q' ->]]|H].
           ++ left. split; [reflexivity|]. exact (split_on_head _ _ _ _ _ E).
           ++ right. apply (IH q); [now left|exact H].
        -- apply has_pair_cons. right. apply (IH p); [now right|exact H].
Qed.

(** X4: every line of the text returned by [_normalize_spacing] is trimmed
    and has no two spaces in a row. *)
Theorem normalized_lines_are_trimmed (text : str) :
  Forall (fun l => Py.strip l = l /\ ~ has_pair " " " " l)
         (Py.split_on nl (_normalize_spacing text)).
Proof.
  unfold _normalize_spacing, Re.sub; cbv zeta. change (s " ") with [" "].
  rewrite (sub_rep_squash (Ascii.eqb " ") " " 0) by (auto || lia).
  cbn [skipn].
  set (u := Re.sub_from newline_run [nl; nl] 0 None _).
  assert (Hu : ~ has_pair " " " " u).
  { intros H. apply sub_from_pairs in H; [|discriminate].
    destruct H as [H|[[H|[H|[]]]|[H|[H|[]]]]]; try discriminate.
    now apply squash_no_adjacent in H. }
  clearbody u.
  rewrite split_on_join.
  - apply Forall_forall. intros l Hin. apply in_map_iff in Hin.
    destruct Hin as [x [<- Hx]]. split; [apply strip_strip|].
    intros H. apply strip_pairs in H. apply Hu.
    now apply (split_on_pairs nl " " " " u x).
  - pose proof (split_on_nonempty nl u).
    destruct (Py.split_on nl u); [congruence|discriminate].
  - apply Forall_forall. intros l Hin. apply in_map_iff in Hin.
    destruct Hin as [x [<- Hx]]. apply strip_free.
    pose proof (split_on_free nl u) as Hfree.
    rewrite Forall_forall in Hfree. now apply Hfree.
Qed.

(** ** Lines without letters *)

Lemma uncased_not_upper (t : str) :
  Forall (fun c => cased c = false) t -> ~ entirely_upper t.
Proof.
  intros Hall [[c [Hin Hc]] _]. rewrite Forall_forall in Hall.
  specialize (Hall c Hin). unfold cased in Hall. now rewrite Hc in Hall.
Qed.

(** X5: a line without any cased character, such as a number or a row of
    punctuation, is never a heading. *)
Theorem line_without_letters_is_no_heading (line : str) :
  Forall (fun c => cased c = false) line -> _is_heading line = false.
Proof.
  intros Hall. destruct (_is_heading line) eqn:E; [exfalso|reflexivity].
  apply heading_detector_rule in E. destruct E as [_ [_ [H|[H|[w [Hw H]]]]]].
  - now apply (uncased_not_upper line).
  - destruct H as [[c [Hin Hc]] _]. rewrite Forall_forall in Hall.
    specialize (Hall c Hin). congruence.
  - apply (uncased_not_upper w); [|exact H].
    destruct Hw as [front [back [-> _]]].
    apply Forall_app in Hall. destruct Hall as [_ Hall].
    apply Forall_app in Hall. tauto.
Qed.

Lemma line_without_letters_is_no_heading_witness :
  Forall (fun c => cased c = false) (s "2024 - 100%")
  /\ _is_heading (s "2024 - 100%") = false.
Proof.
  assert (H : Forall (fun c => cased c = false) (s "2024 - 100%"))
    by (repeat constructor).
  split; [exact H|].
  exact (line_without_letters_is_no_heading (s "2024 - 100%") H).
Defined.

(** ** More on the chunking loop *)

Lemma filter_nonspace_blank (t : str) : filter nonspace t = [] <-> blank t.
Proof.
  unfold blank. split; [|apply filter_nonspace_spaces].
  induction t as [|c r IH]; [constructor|]. cbn [filter].
  destruct (nonspace c) eqn:E; [discriminate|].
  intros H. constructor; [|now apply IH].
  unfold nonspace in E. now apply negb_false_iff in E.
Qed.

Lemma solid_not_blank (t : str) : solid t -> filter nonspace t <> [].
Proof.
  intros [Hne [Hhd _]]. destruct t as [|c r]; [now elim Hne|].
  cbn [filter hd] in *. unfold nonspace. now rewrite Hhd.
Qed.

(** X6: [split_into_chunks] returns no chunk exactly when the text is made
    of whitespace only (the empty text included). *)
Theorem no_chunk_iff_blank (text : str) (max_chunk_size : Z) :
  split_into_chunks (Some text) max_chunk_size = inl [] <-> blank text.
Proof.
  destruct (chunks_grouping max_chunk_size (sentences_of text)
              (sentences_solid text)) as [groups [Hcat [Hrun Hok]]].
  cbn [split_into_chunks]. rewrite Hrun, <- filter_nonspace_blank.
  rewrite <- sentences_keep_text, <- Hcat. split.
  - intros H. injection H as H. now destruct groups.
  - intros H. destruct groups as [|g gs]; [reflexivity|exfalso].
    inversion Hok as [|? ? [Hg _] _]; subst.
    pose proof (sentences_solid text) as Hsolid. rewrite <- Hcat in Hsolid.
    destruct g as [|x g]; [now elim Hg|]. cbn [concat app] in *.
    inversion Hsolid as [|? ? Hx _]; subst.
    rewrite filter_app in H. apply app_eq_nil in H. destruct H as [H _].
    now apply (solid_not_blank x).
Qed.

Lemma chunk_loop_fits (max_chunk_size : Z) (sentences : list str) :
  forall (chunks group : list str),
    (Py.len (concat (map sentence_with_space (group ++ sentences)))
     <= max_chunk_size)%Z ->
    fold_left (chunk_step max_chunk_size) sentences
              (chunks, concat (map sentence_with_space group))
    = (chunks, concat (map sentence_with_space (group ++ sentences))).
Proof.
  induction sentences as [|x ss IH]; intros chunks group Hfit.
  - now rewrite app_nil_r.
  - cbn [fold_left]. rewrite chunk_step_spec.
    replace (group ++ x :: ss) with ((group ++ [x]) ++ ss) in *
      by now rewrite <- app_assoc.
    destruct (Z.gtb_spec
                (Py.len (concat (map sentence_with_space group))
                 + Py.len (sentence_with_space x)) max_chunk_size) as [Hover|_].
    + exfalso. rewrite !map_app, !concat_app, !len_app in Hfit.
      cbn [map concat] in Hfit. rewrite app_nil_r in Hfit.
      unfold Py.len in *. lia.
    + now apply IH.
Qed.

(** X7: when the sentences of the text, terminated and joined by single
    spaces, are shorter than [max_chunk_size], the text makes exactly one
    chunk, and the chunk is that joined text. *)
Theorem short_text_is_one_chunk (text : str) (max_chunk_size : Z) :
  sentences_of text <> [] ->
  (Py.len (chunk_of (sentences_of text)) < max_chunk_size)%Z ->
  split_into_chunks (Some text) max_chunk_size
  = inl [chunk_of (sentences_of text)].
Proof.
  intros Hne Hfit. cbn [split_into_chunks]. unfold chunks_of.
  change (@nil ascii) with (concat (map sentence_with_space [])) at 1.
  rewrite chunk_loop_fits.
  - cbn [app]. rewrite buffer_truthy, close_group;
      auto using sentences_solid.
    now destruct (sentences_of text).
  - cbn [app]. rewrite buffer_chunk, len_app by assumption.
    unfold Py.len in *. cbn [length s list_ascii_of_string]. lia.
Qed.

Lemma short_text_is_one_chunk_witness :
  sentences_of (s "Hi there.  Go now") <> []
  /\ (Py.len (chunk_of (sentences_of (s "Hi there.  Go now"))) < 18)%Z
  /\ split_into_chunks (Some (s "Hi there.  Go now")) 18
     = inl [s "Hi there. Go now."].
Proof.
  assert (H1 : sentences_of (s "Hi there.  Go now") <> [])
    by (vm_compute; discriminate).
  assert (H2 : (Py.len (chunk_of (sentences_of (s "Hi there.  Go now")))
                < 18)%Z) by (vm_compute; reflexivity).
  split; [exact H1|]. split; [exact H2|].
  exact (short_text_is_one_chunk (s "Hi there.  Go now") 18 H1 H2).
Defined.

Lemma chunk_loop_greedy (max_chunk_size : Z) (sentences : list str) :
  forall (chunks : list str) (group : list str),
    Forall solid sentences -> Forall solid group ->
    exists groups,
      concat groups = group ++ sentences
      /\ (let (chunks', current_chunk) :=
            fold_left (chunk_step max_chunk_size) sentences
                      (chunks, concat (map sentence_with_space group)) in
          if truthy current_chunk then chunks' ++ [Py.strip current_chunk]
          else chunks')
         = chunks ++ map chunk_of groups
      /\ greedy max_chunk_size groups
      /\ (group <> [] -> exists more rest, groups = (group ++ more) :: rest).
Proof.
  induction sentences as [|x ss IH]; intros chunks group Hss Hgroup.
  - cbn [fold_left]. rewrite buffer_truthy. destruct group as [|y g].
    + exists []. cbn. rewrite app_nil_r. repeat split. congruence.
    + exists [y :: g]. rewrite close_group by (assumption || discriminate).
      cbn [map concat greedy]. rewrite !app_nil_r. repeat split.
      intros _. exists [], []. now rewrite app_nil_r.
  - inversion Hss as [|? ? Hx Hss']; subst.
    cbn [fold_left]. rewrite chunk_step_spec.
    destruct (Z.gtb_spec
                (Py.len (concat (map sentence_with_space group))
                 + Py.len (sentence_with_space x)) max_chunk_size) as [Hover|Hin].
    + destruct group as [|y g].
      * destruct (IH chunks [x]) as [groups [Hcat [Hrun [Hgreedy _]]]];
          [assumption|now constructor|].
        exists groups. repeat split; trivial. congruence.
      * rewrite close_group by (assumption || discriminate).
        destruct (IH (chunks ++ [chunk_of (y :: g)]) [x])
          as [groups [Hcat [Hrun [Hgreedy Hfirst]]]];
          [assumption|now constructor|].
        destruct (Hfirst ltac:(discriminate)) as [more [rest ->]].
        exists ((y :: g) :: ([x] ++ more) :: rest). split; [|split; [|split]].
        -- cbn [concat] in *. now rewrite Hcat.
        -- rewrite Hrun. cbn [map]. now rewrite <- app_assoc.
        -- cbn [greedy app hd]. split; [|exact Hgreedy].
           rewrite buffer_chunk, len_app, sentence_with_space_spec, len_app
             in Hover by discriminate.
           unfold Py.len in *. cbn [length s list_ascii_of_string] in Hover.
           lia.
        -- intros _. exists [], (([x] ++ more) :: rest). now rewrite app_nil_r.
    + destruct (IH chunks (group ++ [x]))
        as [groups [Hcat [Hrun [Hgreedy Hfirst]]]].
      * assumption.
      * apply Forall_app. split; [assumption|now constructor].
      * exists groups. rewrite <- app_assoc in Hcat. repeat split; trivial.
        intros _. destruct Hfirst as [more [rest ->]].
        { destruct group; discriminate. }
        exists (x :: more), rest. now rewrite <- app_assoc.
Qed.

(** X8: the chunking is greedy: a chunk is closed only when the next
    sentence, with the space before it and the space after it, would carry
    the buffer over [max_chunk_size]. *)
Theorem chunking_is_greedy (text : str) (max_chunk_size : Z) :
  exists groups,
    concat groups = sentences_of text
    /\ split_into_chunks (Some text) max_chunk_size
       = inl (map chunk_of groups)
    /\ greedy max_chunk_size groups.
Proof.
  destruct (chunk_loop_greedy max_chunk_size (sentences_of text) [] []
              (sentences_solid text) (Forall_nil _))
    as [groups [Hcat [Hrun [Hgreedy _]]]].
  exists groups. split; [exact Hcat|]. split; [|exact Hgreedy].
  cbn [split_into_chunks]. unfold chunks_of. cbn [map concat] in Hrun.
  now rewrite Hrun.
Qed.

(** ** The cleaned text depends on the words only *)

Lemma squash_word (p : ascii -> bool) (e : ascii) (w rest : str) :
  Forall (fun c => p c = false) w ->
  squash p e (w ++ rest) = w ++ squash p e rest.
Proof.
  induction 1 as [|c w Hc _ IH]; [reflexivity|].
  cbn [app squash]. now rewrite Hc, IH.
Qed.

Lemma lstrip_skipn (t : str) : Py.lstrip t = skipn (span Unicode.isspace t) t.
Proof.
  induction t as [|c r IH]; [reflexivity|]. cbn [Py.lstrip span].
  destruct (Unicode.isspace c); [exact IH|reflexivity].
Qed.

Lemma length_lstrip (t : str) : length (Py.lstrip t) <= length t.
Proof. rewrite lstrip_skipn, length_skipn. lia. Qed.

Lemma squash_leading (c : ascii) (r : str) :
  Unicode.isspace c = true ->
  squash Unicode.isspace " " (c :: r)
  = " " :: squash Unicode.isspace " " (Py.lstrip r).
Proof.
  intros Hc.
  rewrite (squash_run Unicode.isspace " " (c :: r) (span Unicode.isspace r))
    by (cbn [span]; now rewrite Hc).
  cbn [skipn]. now rewrite lstrip_skipn.
Qed.

Lemma split_ws_lstrip (t : str) : Py.split_ws t = Py.split_ws (Py.lstrip t).
Proof.
  induction t as [|c r IH]; [reflexivity|]. cbn [Py.lstrip].
  destruct (Unicode.isspace c) eqn:E; [|reflexivity].
  cbn [Py.split_ws]. now rewrite E.
Qed.

Lemma squash_words_from_word (n : nat) :
  forall c r,
    length r < n -> Unicode.isspace c = false ->
    exists trail,
      (trail = [] \/ trail = [" "])
      /\ squash Unicode.isspace " " (c :: r)
         = Py.join (s " ") (Py.split_ws (c :: r)) ++ trail.
Proof.
  induction n as [|n IH]; intros c r Hlen Hc; [lia|].
  rewrite split_ws_word by assumption.
  set (k := span nonspace r).
  assert (Hword : Forall (fun x => Unicode.isspace x = false)
                         (c :: firstn k r)).
  { constructor; [exact Hc|].
    apply Forall_impl with (2 := span_firstn nonspace r).
    intros x. apply nonspace_true. }
  replace (squash Unicode.isspace " " (c :: r))
    with (squash Unicode.isspace " " ((c :: firstn k r) ++ skipn k r))
    by (cbn [app]; now rewrite firstn_skipn).
  rewrite squash_word by assumption.
  pose proof (span_stop nonspace " " r eq_refl) as Hstop. fold k in Hstop.
  assert (Hk : length (skipn k r) <= length r) by (rewrite length_skipn; lia).
  destruct (skipn k r) as [|x rest] eqn:Erest.
  - exists []. split; [now left|]. cbn [squash Py.split_ws Py.join].
    reflexivity.
  - cbn [hd] in Hstop. unfold nonspace in Hstop.
    apply negb_false_iff in Hstop.
    rewrite squash_leading by assumption.
    replace (Py.split_ws (x :: rest)) with (Py.split_ws (Py.lstrip rest))
      by (cbn [Py.split_ws]; rewrite Hstop; symmetry; apply split_ws_lstrip).
    pose proof (lstrip_hd rest) as Hhd. pose proof (length_lstrip rest) as Hl.
    destruct (Py.lstrip rest) as [|d q].
    + exists [" "]. split; [now right|]. reflexivity.
    + specialize (Hhd ltac:(discriminate)). cbn [hd] in Hhd.
      destruct (IH d q) as [trail [Htrail Heq]];
        [cbn [length] in *; lia|exact Hhd|].
      exists trail. split; [exact Htrail|]. rewrite Heq.
      rewrite (join_cons (s " ") (c :: firstn k r)).
      * change (s " ") with [" "]. now rewrite <- !app_assoc.
      * rewrite split_ws_word by assumption. discriminate.
Qed.

(** Collapsing whitespace gives the words joined by single spaces, with at
    most one space before and one after. *)
Lemma squash_words (t : str) :
  exists lead trail,
    (lead = [] \/ lead = [" "]) /\ (trail = [] \/ trail = [" "])
    /\ squash Unicode.isspace " " t
       = lead ++ Py.join (s " ") (Py.split_ws t) ++ trail.
Proof.
  destruct t as [|c r]; [exists [], []; auto|].
  destruct (Unicode.isspace c) eqn:Ec.
  - rewrite squash_leading by assumption.
    replace (Py.split_ws (c :: r)) with (Py.split_ws (Py.lstrip r))
      by (cbn [Py.split_ws]; rewrite Ec; symmetry; apply split_ws_lstrip).
    pose proof (lstrip_hd r) as Hhd.
    destruct (Py.lstrip r) as [|d q].
    + exists [" "], []. auto.
    + specialize (Hhd ltac:(discriminate)). cbn [hd] in Hhd.
      destruct (squash_words_from_word (S (length q)) d q)
        as [trail [Htrail Heq]]; [lia|exact Hhd|].
      exists [" "], trail. rewrite Heq. auto.
  - destruct (squash_words_from_word (S (length r)) c r)
      as [trail [Htrail Heq]]; [lia|exact Ec|].
    exists [], trail. auto.
Qed.

Lemma squash_padded (p : ascii -> bool) (e : ascii) (lead t trail : str) :
  p " " = false ->
  lead = [] \/ lead = [" "] -> trail = [] \/ trail = [" "] ->
  squash p e (lead ++ t ++ trail) = lead ++ squash p e t ++ trail.
Proof.
  intros Hp Hlead Htrail.
  assert (Hl : squash p e (lead ++ t ++ trail)
               = lead ++ squash p e (t ++ trail)).
  { destruct Hlead as [-> | ->]; [reflexivity|].
    apply squash_word. now repeat constructor. }
  rewrite Hl. f_equal.
  destruct Htrail as [-> | ->]; [now rewrite !app_nil_r|].
  now apply squash_snoc.
Qed.

Lemma strip_padded (lead t trail : str) :
  lead = [] \/ lead = [" "] -> trail = [] \/ trail = [" "] ->
  Py.strip (lead ++ t ++ trail) = Py.strip t.
Proof.
  intros Hlead Htrail.
  assert (Hl : Py.strip (lead ++ t ++ trail) = Py.strip (t ++ trail))
    by (destruct Hlead as [-> | ->]; reflexivity).
  rewrite Hl. destruct Htrail as [-> | ->]; [now rewrite app_nil_r|].
  now apply strip_snoc_space.
Qed.

Lemma strip_cleanup_words (t : str) :
  Py.strip (_basic_cleanup t)
  = Py.strip
      (squash (Ascii.eqb "!") "!"
         (squash (Ascii.eqb "?") "?"
            (squash (Ascii.eqb ".") "."
               (filter (fun c => negb (problematic c))
                       (Py.join (s " ") (Py.split_ws t)))))).
Proof.
  rewrite basic_cleanup_squash.
  destruct (squash_words t) as [lead [trail [Hlead [Htrail ->]]]].
  assert (Hfilter : forall x,
             filter (fun c => negb (problematic c)) (lead ++ x ++ trail)
             = lead ++ filter (fun c => negb (problematic c)) x ++ trail).
  { intros x. rewrite !filter_app.
    destruct Hlead as [-> | ->], Htrail as [-> | ->]; reflexivity. }
  rewrite Hfilter, !squash_padded by (assumption || reflexivity).
  now apply strip_padded.
Qed.

(** X9: [clean_and_structure] depends on the whitespace-delimited words of
    the text only: two texts with the same words, whatever whitespace
    separates them, give the same result. *)
Theorem clean_and_structure_depends_on_words (text text' : str) :
  Py.split_ws text = Py.split_ws text' ->
  clean_and_structure (Some text) = clean_and_structure (Some text').
Proof.
  assert (Hwords : forall t,
    clean_and_structure (Some t)
    = if is_noise (Py.strip (_basic_cleanup t)) then []
      else squash (Ascii.eqb " ") " " (closed (Py.strip (_basic_cleanup t)))).
  { intros [|c r]; [reflexivity|].
    apply clean_and_structure_spec. discriminate. }
  intros H. now rewrite !Hwords, !strip_cleanup_words, H.
Qed.

Lemma clean_and_structure_depends_on_words_witness :
  Py.split_ws (s "  Power   Platform" ++ [nl; nl] ++ s "helps you ")
  = Py.split_ws (s "Power Platform helps you")
  /\ clean_and_structure
       (Some (s "  Power   Platform" ++ [nl; nl] ++ s "helps you "))
     = clean_and_structure (Some (s "Power Platform helps you")).
Proof.
  assert (H : Py.split_ws (s "  Power   Platform" ++ [nl; nl] ++ s "helps you ")
              = Py.split_ws (s "Power Platform helps you"))
    by (vm_compute; reflexivity).
  split; [exact H|].
  exact (clean_and_structure_depends_on_words _ _ H).
Defined.

(** ** Chunking a cleaned text *)

Lemma ends_sentence_cons (c : ascii) (t : str) :
  t <> [] -> ends_sentence (c :: t) = ends_sentence t.
Proof.
  intros Hne. unfold ends_sentence. destruct t as [|d q]; [now elim Hne|].
  reflexivity.
Qed.

Lemma join_cons_head (sep : str) (c : ascii) (pieces : list str) :
  pieces <> [] ->
  Py.join sep (Py.cons_head c pieces) = c :: Py.join sep pieces.
Proof.
  destruct pieces as [|p [|q ps]]; [congruence|reflexivity|reflexivity].
Qed.

(** On a text with single plain spaces that ends a sentence, the pieces of
    the sentence split are whole sentences, and the spaces between them are
    all that is left out. *)
Lemma split_single_spaced (t : str) :
  forall prev,
    plain_spaces t -> ~ has_pair " " " " t ->
    match t with
    | [] => exists x, prev = Some x /\ Py.char_in x (s ".!?") = true
    | _ :: _ => ends_sentence t = true
    end ->
    exists first rest,
      Re.split_from sentence_break 0 prev t = first :: rest
      /\ Forall (fun p => solid p /\ ends_sentence p = true) rest
      /\ (first = [] ->
          exists x, prev = Some x /\ Py.char_in x (s ".!?") = true)
      /\ (first <> [] ->
          ends_sentence first = true /\ hd " " first = hd " " t)
      /\ Py.join (s " ") (first :: rest) = t.
Proof.
  induction t as [|c r IH]; intros prev Hplain Hpair Hend.
  - exists [], []. repeat split; trivial; try constructor. congruence.
  - inversion Hplain as [|? ? Hc Hplain']; subst.
    assert (Hpair' : ~ has_pair " " " " r)
      by (intros H; apply Hpair, has_pair_cons; now right).
    assert (Hcopy :
      (r = [] -> Py.char_in c (s ".!?") = true) ->
      exists first rest,
        Py.cons_head c (Re.split_from sentence_break 0 (Some c) r)
        = first :: rest
        /\ Forall (fun p => solid p /\ ends_sentence p = true) rest
        /\ (first = [] ->
            exists x, prev = Some x /\ Py.char_in x (s ".!?") = true)
        /\ (first <> [] ->
            ends_sentence first = true /\ hd " " first = hd " " (c :: r))
        /\ Py.join (s " ") (first :: rest) = c :: r).
    { intros Hlast.
      destruct (IH (Some c) Hplain' Hpair') as [f [rest [Hs [Hall [Hf [Hfe Hj]]]]]].
      { destruct r as [|d q]; [exists c; auto|].
        now rewrite <- (ends_sentence_cons c (d :: q)) by discriminate. }
      exists (c :: f), rest. rewrite Hs. cbn [Py.cons_head].
      split; [reflexivity|]. split; [exact Hall|]. split; [discriminate|].
      split.
      - intros _. split; [|reflexivity]. destruct f as [|y f].
        + destruct (Hf eq_refl) as [x [Hx Hin]]. injection Hx as <-.
          exact Hin.
        + rewrite ends_sentence_cons by discriminate. now apply Hfe.
      - rewrite <- Hj. destruct rest; reflexivity. }
    assert (Hlast : r = [] -> Py.char_in c (s ".!?") = true)
      by (intros ->; exact Hend).
    cbn [Re.split_from]. rewrite match_len_sentence_break.
    destruct prev as [x|]; [|now apply Hcopy].
    destruct (Py.char_in x (s ".!?")) eqn:Ex; [|now apply Hcopy].
    cbn [span]. destruct (Unicode.isspace c) eqn:Ec; [|now apply Hcopy].
    specialize (Hc eq_refl). subst c.
    destruct r as [|d q]; [discriminate|].
    assert (Ed : Unicode.isspace d = false).
    { destruct (Unicode.isspace d) eqn:Ed; [|reflexivity]. exfalso.
      inversion Hplain' as [|? ? Hd _]; subst. specialize (Hd Ed). subst d.
      apply Hpair. now exists [], q. }
    cbn [span]. rewrite Ed. cbn [Nat.leb].
    destruct (IH (Some " ") Hplain' Hpair') as [f [rest [Hs [Hall [Hf [Hfe Hj]]]]]].
    { now rewrite <- (ends_sentence_cons " " (d :: q)) by discriminate. }
    exists [], (f :: rest). rewrite Hs.
    split; [reflexivity|]. split; [|split; [|split]].
    + constructor; [|exact Hall].
      destruct f as [|y f].
      * destruct (Hf eq_refl) as [z [Hz Hin]]. injection Hz as <-.
        discriminate.
      * destruct (Hfe ltac:(discriminate)) as [He Hh]. split; [|exact He].
        split; [discriminate|]. split.
        -- cbn [hd] in *. now subst y.
        -- now apply ends_sentence_not_space.
    + intros _. now exists x.
    + congruence.
    + rewrite join_cons by discriminate. now rewrite Hj.
Qed.

Lemma sentences_of_single_spaced (t : str) :
  solid t -> ends_sentence t = true ->
  plain_spaces t -> ~ has_pair " " " " t ->
  Py.join (s " ") (map terminated (sentences_of t)) = t.
Proof.
  intros Hsolid Hend Hplain Hpair. unfold sentences_of, Re.split; cbv zeta.
  rewrite (solid_strip t Hsolid).
  destruct (split_single_spaced t None Hplain Hpair)
    as [f [rest [Hs [Hall [Hf [Hfe Hj]]]]]].
  { destruct t; [now destruct Hsolid|exact Hend]. }
  rewrite Hs.
  assert (Hpieces : Forall (fun p => solid p /\ ends_sentence p = true)
                           (f :: rest)).
  { constructor; [|exact Hall]. destruct f as [|y f].
    - destruct (Hf eq_refl) as [x [Hx _]]. discriminate.
    - destruct (Hfe ltac:(discriminate)) as [He Hh]. split; [|exact He].
      split; [discriminate|]. split.
      + rewrite Hh. apply Hsolid.
      + now apply ends_sentence_not_space. }
  transitivity (Py.join (s " ") (f :: rest)); [|exact Hj].
  f_equal. clear Hs Hj Hall Hf Hfe.
  induction Hpieces as [|p ps [Hp He] _ IH]; [reflexivity|].
  cbn [filter]. rewrite (solid_strip p Hp).
  replace (truthy p) with true by (symmetry; apply truthy_true, Hp).
  cbn [map]. rewrite (solid_strip p Hp), IH. f_equal.
  rewrite terminated_closed. unfold closed. now rewrite He.
Qed.

Lemma chunks_join (text : str) (max_chunk_size : Z) :
  exists chunks,
    split_into_chunks (Some text) max_chunk_size = inl chunks
    /\ Py.join (s " ") chunks
       = Py.join (s " ") (map terminated (sentences_of text)).
Proof.
  destruct (chunks_grouping max_chunk_size (sentences_of text)
              (sentences_solid text)) as [groups [Hcat [Hrun Hok]]].
  exists (map chunk_of groups). split; [simpl; now rewrite Hrun|].
  rewrite <- Hcat, concat_map, <- join_concat.
  - now rewrite map_map.
  - apply Forall_map. apply Forall_impl with (2 := Hok).
    intros g [Hg _]. destruct g; [congruence|discriminate].
Qed.

(** X10: chunking the text that [clean_and_structure] returns loses
    nothing: under every bound, the chunks joined by single spaces are
    that text again. *)
Theorem chunks_of_cleaned_text_rejoin (raw_text : option str)
        (max_chunk_size : Z) :
  exists chunks,
    split_into_chunks (Some (clean_and_structure raw_text)) max_chunk_size
    = inl chunks
    /\ Py.join (s " ") chunks = clean_and_structure raw_text.
Proof.
  destruct (chunks_join (clean_and_structure raw_text) max_chunk_size)
    as [chunks [Hrun Hjoin]].
  exists chunks. split; [exact Hrun|]. rewrite Hjoin.
  destruct raw_text as [[|a raw]|]; [reflexivity| |reflexivity].
  rewrite clean_and_structure_spec by discriminate.
  destruct (is_noise _) eqn:Enoise; [reflexivity|].
  destruct (result_shape (Py.strip (_basic_cleanup (a :: raw))))
    as [Htidy [Hsolid [Hends Hspace]]].
  { apply strip_tidy, basic_cleanup_tidy. }
  { apply strip_solid. now apply is_noise_short. }
  apply sentences_of_single_spaced; trivial. apply Htidy.
Qed.

(** ** File names *)

Lemma lstrip_chars_suffix (chars t : str) :
  exists front, t = front ++ Python.lstrip_chars chars t.
Proof.
  induction t as [|c r [front IH]]; cbn [Python.lstrip_chars].
  - now exists [].
  - destruct (Py.char_in c chars); [|now exists []].
    exists (c :: front). cbn [app]. now rewrite <- IH.
Qed.

Lemma lstrip_chars_forall (Q : ascii -> Prop) (chars t : str) :
  Forall Q t -> Forall Q (Python.lstrip_chars chars t).
Proof.
  destruct (lstrip_chars_suffix chars t) as [front H]. intros Hall.
  rewrite H in Hall. apply Forall_app in Hall. tauto.
Qed.

Lemma lstrip_chars_head (chars t : str) (h : ascii) (r : str) :
  Python.lstrip_chars chars t = h :: r -> Py.char_in h chars = false.
Proof.
  induction t as [|c q IH]; cbn [Python.lstrip_chars]; [discriminate|].
  destruct (Py.char_in c chars) eqn:E; [exact IH|].
  intros H. injection H as <- _. exact E.
Qed.

Lemma lstrip_chars_snoc (chars t : str) (c : ascii) :
  Py.char_in c chars = false ->
  Python.lstrip_chars chars (t ++ [c]) = Python.lstrip_chars chars t ++ [c].
Proof.
  intros Hc. induction t as [|d r IH]; cbn [Python.lstrip_chars app].
  - now rewrite Hc.
  - now destruct (Py.char_in d chars).
Qed.

Lemma strip_chars_forall (Q : ascii -> Prop) (chars t : str) :
  Forall Q t -> Forall Q (Python.strip_chars chars t).
Proof.
  intros H. unfold Python.strip_chars.
  apply Forall_rev, lstrip_chars_forall, Forall_rev.
  now apply lstrip_chars_forall.
Qed.

Lemma strip_chars_head (chars t : str) :
  Python.strip_chars chars t = []
  \/ exists h r,
      Python.strip_chars chars t = h :: r /\ Py.char_in h chars = false.
Proof.
  unfold Python.strip_chars.
  destruct (Python.lstrip_chars chars t) as [|h r] eqn:E; [now left|right].
  pose proof (lstrip_chars_head chars t h r E) as Hh.
  cbn [rev]. rewrite (lstrip_chars_snoc _ _ _ Hh), rev_app_distr.
  cbn [rev app]. eauto.
Qed.

Lemma lower_is_filename_character (c : ascii) :
  Unicode.isword c = true -> filename_character (Unicode.lower c) = true.
Proof. destruct c as [[] [] [] [] [] [] [] []]; vm_compute; congruence. Qed.

Lemma lower_underscore (c : ascii) : Unicode.lower c = "_" -> c = "_".
Proof. destruct c as [[] [] [] [] [] [] [] []]; vm_compute; congruence. Qed.

Lemma firstn_forall (Q : ascii -> Prop) (n : nat) (t : str) :
  Forall Q t -> Forall Q (firstn n t).
Proof.
  intros H. rewrite <- (firstn_skipn n t) in H. apply Forall_app in H. tauto.
Qed.

Lemma startswith_head (h c : ascii) (r : str) :
  Py.startswith (h :: r) [[c]] = Ascii.eqb c h.
Proof.
  unfold Py.startswith. cbn [existsb Py.startswith1].
  rewrite orb_false_r. replace (Py.startswith1 r []) with true
    by now destruct r.
  apply andb_true_r.
Qed.

(** X11: the file name made by [create_safe_filename] is never empty, has
    at most 50 characters, holds no whitespace and, of the ASCII
    characters, only digits, lowercase letters and underscores (so no
    slash, dot, colon or hyphen), and does not start with an underscore.
    Nothing is said of the other characters: beyond U+00FF [str.lower] can
    leave a capital letter as it is or return a combining mark. *)
Theorem safe_filename_shape (title : str) :
  create_safe_filename title <> []
  /\ (Py.len (create_safe_filename title) <= 50)%Z
  /\ Forall (fun c => filename_character c = true) (create_safe_filename title)
  /\ Py.startswith (create_safe_filename title) [s "_"] = false.
Proof.
  assert (Hdefault :
    Utils.default_filename <> []
    /\ (Py.len Utils.default_filename <= 50)%Z
    /\ Forall (fun c => filename_character c = true) Utils.default_filename
    /\ Py.startswith Utils.default_filename [s "_"] = false).
  { split; [discriminate|]. split; [vm_compute; discriminate|].
    split; [repeat constructor|reflexivity]. }
  unfold Utils.create_safe_filename; cbv zeta.
  destruct (truthy title); cbn [negb]; [|exact Hdefault].
  unfold Re.sub. rewrite sub_cls_filter by lia. cbn [skipn].
  change (s "_") with ["_"].
  rewrite (sub_rep_squash Utils.separator "_" 0) by (auto || lia).
  cbn [skipn].
  set (kept := filter _ title).
  assert (Hkept : Forall (fun c => Unicode.isword c = true
                                   \/ Utils.separator c = true) kept).
  { apply Forall_forall. intros c Hin. apply filter_In in Hin.
    destruct Hin as [_ Hc]. unfold Utils.unsafe_character in Hc.
    rewrite negb_involutive in Hc. unfold Utils.separator.
    apply orb_true_iff in Hc. destruct Hc as [Hc|Hc].
    - apply orb_true_iff in Hc. destruct Hc as [Hc|Hc]; [now left|right].
      rewrite Hc. apply orb_true_r.
    - right. now rewrite Hc. }
  clearbody kept.
  assert (Hword : Forall (fun c => Unicode.isword c = true)
                         (squash Utils.separator "_" kept)).
  { pose proof (squash_class Utils.separator "_" kept) as Hclass.
    pose proof (squash_forall _ Utils.separator "_" kept
                  (or_introl eq_refl) Hkept) as Hq.
    rewrite Forall_forall in *. intros c Hin.
    destruct (Hq c Hin) as [Hc|Hc]; [exact Hc|].
    now rewrite (Hclass c Hin Hc). }
  set (joined := squash Utils.separator "_" kept) in *. clearbody joined.
  set (lowered := Py.lower (Python.strip_chars ["_"] joined)).
  assert (Hlow : Forall (fun c => filename_character c = true) lowered).
  { unfold lowered, Py.lower. apply Forall_map.
    apply Forall_impl with (P := fun c => Unicode.isword c = true).
    - apply lower_is_filename_character.
    - now apply strip_chars_forall. }
  assert (Hhead : Py.startswith lowered [s "_"] = false).
  { unfold lowered.
    destruct (strip_chars_head ["_"] joined) as [-> |[h [r [-> Hh]]]];
      [reflexivity|].
    cbn [Py.lower map]. change [s "_"] with [["_"]].
    rewrite startswith_head. apply Ascii.eqb_neq. intros Heq.
    symmetry in Heq. apply lower_underscore in Heq. subst h. discriminate. }
  clearbody lowered.
  set (cut := if (Py.len lowered >? 50)%Z then Python.slice_to lowered 50
              else lowered).
  assert (Hcut : (Py.len cut <= 50)%Z
                 /\ Forall (fun c => filename_character c = true) cut
                 /\ Py.startswith cut [s "_"] = false).
  { unfold cut. destruct (Z.gtb_spec (Py.len lowered) 50) as [Hlong|Hshort].
    - unfold Python.slice_to. cbn [Z.ltb Z.compare].
      split; [|split].
      + unfold Py.len. rewrite length_firstn. lia.
      + now apply firstn_forall.
      + destruct lowered as [|h r]; [reflexivity|].
        change (Z.to_nat 50) with 50. cbn [firstn].
        change [s "_"] with [["_"]] in Hhead |- *.
        rewrite startswith_head in Hhead. now rewrite startswith_head.
    - auto. }
  clearbody cut. destruct cut as [|h r]; cbn [truthy negb]; [exact Hdefault|].
  split; [discriminate|exact Hcut].
Qed.

(** ** Truncation *)

(** X12: for a bound of at least 3, the text returned by [truncate_text]
    never exceeds the bound: a text that fits is returned as it is, and a
    longer one gives its first [max_length - 3] characters followed by
    three dots, [max_length] characters in all. *)
Theorem truncate_text_within_bound (text : str) (max_length : Z) :
  (3 <= max_length)%Z ->
  (Py.len (truncate_text text max_length) <= max_length)%Z
  /\ ((Py.len text <= max_length)%Z -> truncate_text text max_length = text)
  /\ ((Py.len text > max_length)%Z ->
      exists kept dropped,
        truncate_text text max_length = kept ++ s "..."
        /\ text = kept ++ dropped
        /\ Py.len kept = (max_length - 3)%Z).
Proof.
  intros Hmax. unfold Utils.truncate_text.
  destruct text as [|c r]; cbn [truthy negb].
  - split; [unfold Py.len; cbn; lia|]. split; [reflexivity|].
    unfold Py.len; cbn; lia.
  - destruct (Z.leb_spec (Py.len (c :: r)) max_length) as [Hfit|Hlong].
    + split; [exact Hfit|]. split; [reflexivity|]. lia.
    + unfold Python.slice_to.
      destruct (Z.ltb_spec (max_length - 3) 0) as [Hneg|_]; [lia|].
      set (kept := firstn (Z.to_nat (max_length - 3)) (c :: r)).
      assert (Hlen : Py.len kept = (max_length - 3)%Z).
      { unfold kept, Py.len in *. rewrite length_firstn. lia. }
      split; [rewrite len_app, Hlen; unfold Py.len; cbn; lia|].
      split; [lia|]. intros _.
      exists kept, (skipn (Z.to_nat (max_length - 3)) (c :: r)).
      split; [reflexivity|]. split; [|exact Hlen].
      unfold kept. now rewrite firstn_skipn.
Qed.

Lemma truncate_text_within_bound_witness :
  (3 <= 8)%Z
  /\ (Py.len (truncate_text (s "Power Platform") 8) <= 8)%Z
  /\ truncate_text (s "Power Platform") 8 = s "Power...".
Proof.
  assert (H : (3 <= 8)%Z) by lia.
  split; [exact H|]. split; [|vm_compute; reflexivity].
  exact (proj1 (truncate_text_within_bound (s "Power Platform") 8 H)).
Defined.

(** X13: for a bound below 3, [truncate_text] breaks the bound on every
    text longer than it: the three dots alone are too long. *)
Theorem truncate_text_small_bound (text : str) (max_length : Z) :
  (max_length < 3)%Z -> (Py.len text > max_length)%Z ->
  (Py.len (truncate_text text max_length) > max_length)%Z.
Proof.
  intros Hmax Hlong. unfold Utils.truncate_text.
  destruct text as [|c r]; cbn [truthy negb]; [exact Hlong|].
  destruct (Z.leb_spec (Py.len (c :: r)) max_length) as [Hfit|_]; [lia|].
  rewrite len_app. unfold Py.len. cbn [length s list_ascii_of_string]. lia.
Qed.

Lemma truncate_text_small_bound_witness :
  (2 < 3)%Z /\ (Py.len (s "abcdef") > 2)%Z
  /\ (Py.len (truncate_text (s "abcdef") 2) > 2)%Z
  /\ truncate_text (s "abcdef") 2 = s "abcde...".
Proof.
  assert (H1 : (2 < 3)%Z) by lia.
  assert (H2 : (Py.len (s "abcdef") > 2)%Z) by (vm_compute; reflexivity).
  split; [exact H1|]. split; [exact H2|]. split; [|vm_compute; reflexivity].
  exact (truncate_text_small_bound (s "abcdef") 2 H1 H2).
Defined.

(** ** The display text *)

Lemma split_ws_cons_word (c : ascii) (t : str) :
  Unicode.isspace c = false ->
  Py.split_ws (c :: t)
  = if nonspace (hd " " t) then Py.cons_head c (Py.split_ws t)
    else [c] :: Py.split_ws t.
Proof.
  intros Hc. cbn [Py.split_ws]. rewrite Hc.
  destruct t as [|d q]; [reflexivity|]. cbn [hd]. unfold nonspace.
  now destruct (Unicode.isspace d).
Qed.

Lemma split_ws_cons_space (c : ascii) (t : str) :
  Unicode.isspace c = true -> Py.split_ws (c :: t) = Py.split_ws t.
Proof. intros Hc. cbn [Py.split_ws]. now rewrite Hc. Qed.

(** Replacing runs of some whitespace characters by one whitespace
    character keeps the words. *)
Lemma split_ws_squash (q : ascii -> bool) (e : ascii) :
  (forall c, q c = true -> Unicode.isspace c = true) ->
  Unicode.isspace e = true ->
  forall t,
    nonspace (hd " " (squash q e t)) = nonspace (hd " " t)
    /\ Py.split_ws (squash q e t) = Py.split_ws t.
Proof.
  intros Hq He.
  assert (Hn : forall c, Unicode.isspace c = true -> nonspace c = false)
    by (intros c Hc; unfold nonspace; now rewrite Hc).
  induction t as [|c r IH]; [now split|].
  assert (Hcopy : nonspace (hd " " (c :: squash q e r))
                  = nonspace (hd " " (c :: r))
                  /\ Py.split_ws (c :: squash q e r) = Py.split_ws (c :: r)).
  { split; [reflexivity|]. destruct IH as [IHh IHs].
    destruct (Unicode.isspace c) eqn:Ec.
    - now rewrite !split_ws_cons_space.
    - now rewrite !split_ws_cons_word, IHh, IHs. }
  destruct r as [|d r'].
  - cbn [squash]. destruct (q c) eqn:Ec; [|exact Hcopy].
    specialize (Hq c Ec). cbn [hd]. rewrite !Hn by assumption.
    now rewrite !split_ws_cons_space.
  - rewrite squash_cons2. destruct (q c) eqn:Ec; [|exact Hcopy].
    pose proof (Hq c Ec) as Hc. destruct IH as [IHh IHs].
    destruct (q d) eqn:Ed.
    + pose proof (Hq d Ed) as Hd. rewrite IHh, IHs. cbn [hd].
      rewrite !Hn by assumption. now rewrite (split_ws_cons_space c).
    + cbn [hd]. rewrite !Hn by assumption. split; [reflexivity|].
      rewrite (split_ws_cons_space e), (split_ws_cons_space c) by assumption.
      exact IHs.
Qed.

Lemma words_are_solid (t : str) : Forall solid (Py.split_ws t).
Proof.
  apply Forall_forall. intros w Hin. apply split_ws_words in Hin.
  destruct Hin as [front [back [_ [Hne [Hall _]]]]].
  destruct w as [|c r _] using rev_ind; [now elim Hne|].
  split; [exact Hne|]. split.
  - destruct r; inversion Hall; subst; assumption.
  - rewrite last_last. apply Forall_app in Hall. destruct Hall as [_ Hall].
    now inversion Hall.
Qed.

Lemma join_solid (sep : str) (pieces : list str) :
  pieces <> [] -> Forall solid pieces -> solid (Py.join sep pieces).
Proof.
  intros Hne Hall. revert Hne.
  induction Hall as [|p ps Hp _ IH]; intros Hne; [now elim Hne|].
  destruct ps as [|q ps]; [exact Hp|].
  rewrite join_cons by discriminate. apply solid_app; [exact Hp|].
  apply IH. discriminate.
Qed.

Lemma strip_squash_words (t : str) :
  Py.strip (squash Unicode.isspace " " t) = Py.join (s " ") (Py.split_ws t).
Proof.
  destruct (squash_words t) as [lead [trail [Hlead [Htrail ->]]]].
  rewrite strip_padded by assumption.
  destruct (Py.split_ws t) as [|w ws] eqn:E; [reflexivity|].
  apply solid_strip, join_solid; [discriminate|].
  rewrite <- E. apply words_are_solid.
Qed.

(** X14: [clean_text_for_display] shows the whitespace-delimited words of
    the text joined by single spaces, truncated by [truncate_text]. *)
Theorem display_text_is_truncated_words (text : str) (max_length : Z) :
  clean_text_for_display text max_length
  = truncate_text (Py.join (s " ") (Py.split_ws text)) max_length.
Proof.
  unfold Utils.clean_text_for_display; cbv zeta.
  destruct text as [|c r]; [reflexivity|]. cbn [truthy negb].
  unfold Re.sub. change (s " ") with [" "].
  rewrite !(sub_rep_squash _ " " 0) by (auto || lia). cbn [skipn].
  rewrite strip_squash_words. f_equal. f_equal.
  apply (split_ws_squash (Ascii.eqb nl) " "); [|reflexivity].
  intros x Hx. apply Ascii.eqb_eq in Hx. now subst x.
Qed.

(** ** Unit links *)

Lemma str_eqb_eq (a b : str) : Python.str_eqb a b = true <-> a = b.
Proof.
  revert b. induction a as [|x a IH]; intros [|y b]; cbn [Python.str_eqb];
    try (split; [discriminate|congruence]); [tauto|].
  rewrite andb_true_iff, Ascii.eqb_eq, IH. split.
  - now intros [-> ->].
  - intros H. now injection H.
Qed.

Lemma mem_in (x : str) (items : list str) :
  Python.mem x items = true <-> In x items.
Proof.
  unfold Python.mem. rewrite existsb_exists. split.
  - intros [y [Hin Hy]]. apply str_eqb_eq in Hy. now subst.
  - intros Hin. exists x. split; [exact Hin|]. now apply str_eqb_eq.
Qed.

Lemma nodup_snoc (x : str) (items : list str) :
  NoDup items -> ~ In x items -> NoDup (items ++ [x]).
Proof.
  intros Hnd Hx. apply NoDup_app; [exact Hnd|repeat constructor; auto|].
  intros y Hy [<-|[]]. now apply Hx.
Qed.

Lemma nodup_firstn (n : nat) (items : list str) :
  NoDup items -> NoDup (firstn n items).
Proof.
  intros H. rewrite <- (firstn_skipn n items) in H.
  now apply NoDup_app_remove_r in H.
Qed.

(** X15: the unit links of a page are pairwise different, at most 10, never
    the page itself, and each is the joined address of an anchor whose
    [href] contains "unit-" or "/units/". *)
Theorem unit_links_are_distinct (urljoin : str -> str -> str)
        (hrefs : list str) (base_url : str) :
  NoDup (_extract_units_links urljoin hrefs base_url)
  /\ length (_extract_units_links urljoin hrefs base_url) <= 10
  /\ ~ In base_url (_extract_units_links urljoin hrefs base_url)
  /\ Forall (fun unit =>
               exists href,
                 In href hrefs /\ unit = urljoin base_url href
                 /\ (Py.contains (s "unit-") href = true
                     \/ Py.contains (s "/units/") href = true))
            (_extract_units_links urljoin hrefs base_url).
Proof.
  unfold Scraper._extract_units_links.
  set (ok := fun unit =>
               unit <> base_url
               /\ exists href,
                   In href hrefs /\ unit = urljoin base_url href
                   /\ (Py.contains (s "unit-") href = true
                       \/ Py.contains (s "/units/") href = true)).
  assert (Hfold : forall todo units,
             incl todo hrefs -> NoDup units -> Forall ok units ->
             NoDup (fold_left (units_step urljoin base_url) todo units)
             /\ Forall ok (fold_left (units_step urljoin base_url) todo units)).
  { induction todo as [|href todo IH]; intros units Hincl Hnd Hok; [now split|].
    cbn [fold_left]. apply IH.
    - intros x Hx. apply Hincl. now right.
    - unfold Scraper.units_step; cbv zeta.
      destruct (truthy href && _); [|exact Hnd].
      destruct (negb (Python.str_eqb _ base_url)); cbn [andb]; [|exact Hnd].
      destruct (Python.mem _ units) eqn:Em; cbn [negb]; [exact Hnd|].
      apply nodup_snoc; [exact Hnd|]. intros Hin. apply mem_in in Hin.
      congruence.
    - unfold Scraper.units_step; cbv zeta.
      destruct (truthy href && _) eqn:Eh; [|exact Hok].
      destruct (Python.str_eqb (urljoin base_url href) base_url) eqn:Eb;
        cbn [negb andb]; [exact Hok|].
      destruct (Python.mem _ units); cbn [negb]; [exact Hok|].
      apply Forall_app. split; [exact Hok|]. constructor; [|constructor].
      split.
      + intros Heq. apply str_eqb_eq in Heq. congruence.
      + exists href. split; [apply Hincl; now left|]. split; [reflexivity|].
        apply andb_true_iff in Eh. destruct Eh as [_ Eh].
        now apply orb_true_iff in Eh. }
  destruct (Hfold hrefs [] (incl_refl _) (NoDup_nil _) (Forall_nil _))
    as [Hnd Hok].
  set (units := fold_left _ hrefs []) in *. clearbody units.
  split; [now apply nodup_firstn|]. split; [rewrite length_firstn; lia|].
  assert (Hcut : Forall ok (firstn 10 units)).
  { rewrite <- (firstn_skipn 10 units) in Hok. apply Forall_app in Hok. tauto. }
  split.
  - intros Hin. rewrite Forall_forall in Hcut.
    now destruct (Hcut base_url Hin).
  - apply Forall_impl with (2 := Hcut). intros unit [_ H]. exact H.
Qed.


(** ** The extracted content *)

Lemma split_ws_word_nonempty (c : ascii) (r : str) :
  Unicode.isspace c = false -> Py.split_ws (c :: r) <> [].
Proof. intros Hc. rewrite split_ws_word by assumption. discriminate. Qed.

Lemma split_ws_app_space (w : ascii) (a b : str) :
  Unicode.isspace w = true ->
  Py.split_ws (a ++ w :: b) = Py.split_ws a ++ Py.split_ws b.
Proof.
  intros Hw. induction a as [|c r IH]; cbn [app].
  - now rewrite split_ws_cons_space.
  - destruct (Unicode.isspace c) eqn:Ec.
    + now rewrite !split_ws_cons_space.
    + rewrite !split_ws_cons_word, IH by assumption.
      destruct r as [|d q].
      * cbn [app hd]. unfold nonspace. rewrite Hw. reflexivity.
      * cbn [app hd]. unfold nonspace.
        destruct (Unicode.isspace d) eqn:Ed; cbn [negb]; [reflexivity|].
        pose proof (split_ws_word_nonempty d q Ed) as Hne.
        destruct (Py.split_ws (d :: q)); [congruence|reflexivity].
Qed.

Lemma split_ws_snoc_space (w : ascii) (a : str) :
  Unicode.isspace w = true -> Py.split_ws (a ++ [w]) = Py.split_ws a.
Proof.
  intros Hw. rewrite split_ws_app_space by assumption. apply app_nil_r.
Qed.

Lemma split_ws_join (pieces : list str) :
  Py.split_ws (Py.join (s " ") pieces) = flat_map Py.split_ws pieces.
Proof.
  induction pieces as [|p ps IH]; [reflexivity|].
  destruct ps as [|q ps].
  - cbn [Py.join flat_map]. now rewrite app_nil_r.
  - rewrite join_cons by discriminate.
    set (joined := Py.join (s " ") (q :: ps)) in *.
    change (p ++ s " " ++ joined) with (p ++ " " :: joined).
    rewrite split_ws_app_space by reflexivity.
    now rewrite IH.
Qed.

Lemma content_step_from (content_parts : list str) (element : str * str) :
  content_step content_parts element
  = content_parts ++ content_step [] element.
Proof.
  unfold Scraper.content_step. destruct element as [name raw]; cbv zeta.
  destruct (truthy _ && _); [|now rewrite app_nil_r].
  now destruct (Python.mem name header_names).
Qed.

Lemma fold_content_step (elements : list (str * str)) :
  forall content_parts,
    fold_left content_step elements content_parts
    = content_parts ++ flat_map (content_step []) elements.
Proof.
  induction elements as [|e es IH]; intros parts; cbn [fold_left flat_map].
  - now rewrite app_nil_r.
  - now rewrite IH, content_step_from, <- app_assoc.
Qed.

(** The words of a part do not depend on the tag of its element. *)
Lemma part_words (name raw : str) :
  flat_map Py.split_ws (content_step [] (name, raw))
  = flat_map Py.split_ws (content_step [] ([], raw)).
Proof.
  unfold Scraper.content_step; cbv zeta.
  destruct (truthy _ && _); [|reflexivity].
  change (Python.mem [] header_names) with false. cbn iota.
  destruct (Python.mem name header_names); [|reflexivity].
  cbn [app flat_map]. rewrite !app_nil_r.
  rewrite !split_ws_cons_space by reflexivity.
  now apply split_ws_snoc_space.
Qed.

Lemma content_words (elements : list (str * str)) :
  Py.split_ws (_extract_main_content elements)
  = flat_map (fun raw => flat_map Py.split_ws (content_step [] ([], raw)))
             (map snd elements).
Proof.
  unfold Scraper._extract_main_content.
  rewrite split_ws_join, fold_content_step. cbn [app].
  induction elements as [|[name raw] es IH]; [reflexivity|].
  cbn [flat_map map snd]. now rewrite flat_map_app, IH, part_words.
Qed.

Lemma same_words_same_cleaning (text text' : str) :
  Py.split_ws text = Py.split_ws text' ->
  clean_and_structure (Some text) = clean_and_structure (Some text').
Proof.
  assert (Hwords : forall t,
    clean_and_structure (Some t)
    = if is_noise (Py.strip (_basic_cleanup t)) then []
      else squash (Ascii.eqb " ") " " (closed (Py.strip (_basic_cleanup t)))).
  { intros [|c r]; [reflexivity|].
    apply clean_and_structure_spec. discriminate. }
  intros H. now rewrite !Hwords, !strip_cleanup_words, H.
Qed.

(** X17: the cleaned text of an extracted page depends on the texts of its
    elements only, not on their tags: the blank lines that
    [_extract_main_content] puts around the text of a header have no
    effect on what [clean_and_structure] returns. *)
Theorem header_spacing_is_lost (elements elements' : list (str * str)) :
  map snd elements = map snd elements' ->
  clean_and_structure (Some (_extract_main_content elements))
  = clean_and_structure (Some (_extract_main_content elements')).
Proof.
  intros H. apply same_words_same_cleaning.
  now rewrite !content_words, H.
Qed.

Lemma header_spacing_is_lost_witness :
  map snd [(s "h2", s "Power Platform"); (s "p", s "It has four parts.")]
  = map snd [(s "p", s "Power Platform"); (s "li", s "It has four parts.")]
  /\ clean_and_structure
       (Some (_extract_main_content
                [(s "h2", s "Power Platform"); (s "p", s "It has four parts.")]))
     = clean_and_structure
         (Some (_extract_main_content
                  [(s "p", s "Power Platform");
                   (s "li", s "It has four parts.")])).
Proof.
  assert (H : map snd [(s "h2", s "Power Platform");
                       (s "p", s "It has four parts.")]
              = map snd [(s "p", s "Power Platform");
                         (s "li", s "It has four parts.")])
    by reflexivity.
  split; [exact H|].
  exact (header_spacing_is_lost _ _ H).
Defined.

Lemma split_ws_blank (t : str) : blank t -> Py.split_ws t = [].
Proof.
  induction 1 as [|c r Hc _ IH]; [reflexivity|].
  now rewrite split_ws_cons_space.
Qed.

Lemma split_ws_strip (t : str) : Py.split_ws (Py.strip t) = Py.split_ws t.
Proof.
  destruct (strip_split t) as [front [back [H [Hfront Hback]]]].
  rewrite H at 2. clear H.
  assert (Hlead : forall x, Py.split_ws (front ++ x) = Py.split_ws x).
  { intros x. induction Hfront as [|c r Hc _ IH]; [reflexivity|].
    cbn [app]. now rewrite split_ws_cons_space. }
  rewrite Hlead. destruct Hback as [|b back Hb Hback].
  - now rewrite app_nil_r.
  - rewrite split_ws_app_space by assumption.
    rewrite (split_ws_blank back) by assumption. now rewrite app_nil_r.
Qed.

Lemma squash_whitespace_solid (t : str) :
  solid t -> solid (squash Unicode.isspace " " t).
Proof.
  intros [Hne [Hhd Hlast]].
  destruct t as [|c r _] using rev_ind; [now elim Hne|].
  rewrite last_last in Hlast. rewrite squash_snoc by assumption.
  split; [now destruct (squash Unicode.isspace " " r)|].
  split; [|now rewrite last_last].
  destruct r as [|d q]; [exact Hlast|]. cbn [app hd] in Hhd.
  destruct q as [|x q]; [cbn [squash]|rewrite squash_cons2];
    rewrite Hhd; exact Hhd.
Qed.

(** X18: of every element whose trimmed text has more than 10 characters,
    [_extract_main_content] keeps the whitespace-delimited words joined by
    single spaces, between two newlines and one newline for a header;
    other elements are dropped.  The second substitution of the loop never
    changes the text. *)
Theorem extracted_part_is_joined_words (content_parts : list str)
        (name raw : str) :
  content_step content_parts (name, raw)
  = if 10 <? length (Py.strip raw) then
      content_parts
      ++ [if Python.mem name header_names
          then [nl; nl] ++ Py.join (s " ") (Py.split_ws raw) ++ [nl]
          else Py.join (s " ") (Py.split_ws raw)]
    else content_parts.
Proof.
  unfold Scraper.content_step; cbv zeta.
  destruct (10 <? length (Py.strip raw)) eqn:Elen;
    [|now rewrite andb_false_r].
  assert (Hsolid : solid (Py.strip raw)).
  { apply strip_solid. intros H. rewrite H in Elen. discriminate. }
  replace (truthy (Py.strip raw)) with true
    by (symmetry; apply truthy_true, Hsolid).
  cbn [andb]. unfold Re.sub. change (s " ") with [" "].
  rewrite (sub_rep_squash Unicode.isspace " " 0) by (auto || lia).
  rewrite (sub_rep_squash (Ascii.eqb nl) nl 0) by (auto || lia).
  cbn [skipn].
  assert (Hwords : squash Unicode.isspace " " (Py.strip raw)
                   = Py.join [" "] (Py.split_ws raw)).
  { rewrite <- (solid_strip _ (squash_whitespace_solid _ Hsolid)).
    rewrite strip_squash_words. now rewrite split_ws_strip. }
  assert (Hnl : squash (Ascii.eqb nl) nl
                  (squash Unicode.isspace " " (Py.strip raw))
                = squash Unicode.isspace " " (Py.strip raw)).
  { pose proof (plain_spaces_no_newline _
                  (squash_class Unicode.isspace " " (Py.strip raw))) as Hno.
    apply squash_id.
    - apply Forall_forall. intros c _. apply eqb_class.
    - intros a b H Ha _. apply eqb_class in Ha. subst a.
      apply has_pair_in in H. destruct H as [H _].
      rewrite Forall_forall in Hno. now apply (Hno nl). }
  rewrite Hnl, Hwords. now destruct (Python.mem name header_names).
Qed.
